(** * hume-schema-gen: the schema converter of [import.py]

    A shallow embedding of the [Converter] class of [import.py], which reads
    the schema of a Neo4j database (node labels, relationship types and
    property types) and builds the Hume schema import document, followed by
    the properties of it that the specification states.

    Python dictionaries keep their insertion order and the document lists
    their values in that order, so the two dictionaries of the converter are
    association lists with Python's update discipline; the table from node
    ids to uuids is only ever looked up, so it is a [gmap].  The results of
    [uuid.uuid4()] and [random.randint] are read from two oracles indexed by
    the number of calls made so far. *)

From stdpp Require Import base option list strings gmap pretty.

Local Open Scope string_scope.
Local Open Scope list_scope.

(** ** Ordered dictionaries *)

Definition dict (V : Type) : Type := list (string * V).

Fixpoint dict_get {V} (k : string) (d : dict V) : option V :=
  match d with
  | [] => None
  | (k', v) :: d' => if decide (k = k') then Some v else dict_get k d'
  end.

(** [d[k] = v]: an existing key keeps its position, a new key goes last. *)
Fixpoint dict_set {V} (k : string) (v : V) (d : dict V) : dict V :=
  match d with
  | [] => [(k, v)]
  | (k', v') :: d' =>
      if decide (k = k') then (k, v) :: d' else (k', v') :: dict_set k v d'
  end.

Definition dict_mem {V} (k : string) (d : dict V) : bool :=
  match dict_get k d with Some _ => true | None => false end.

Definition dict_keys {V} (d : dict V) : list string := d.*1.
Definition dict_values {V} (d : dict V) : list V := d.*2.

(** ** Records read from the database *)

Module Node.
Record t := { id : Z; name : string }.
End Node.

Module Rel.
Record t := { type : string; nodes : Node.t * Node.t }.
End Rel.

Module NodeTypeProperty.
Record t := {
  nodeLabels : list string;
  propertyName : string;
  nodeType : string;
  propertyTypes : list string }.
End NodeTypeProperty.

(** ** Objects of the generated document.  A key that a Python dictionary
    may lack is an [option] field. *)

Module CanvasPosition.
Record t := { x : Z; y : Z }.
End CanvasPosition.

Module Attribute.
Record t := { label : string; type : string }.
End Attribute.

Module Class.
Record t := {
  label : string;
  canvasPosition : CanvasPosition.t;
  icon : string;
  color : string;
  uuid : string;
  attributes : option (list Attribute.t) }.

Definition set_attributes (a : list Attribute.t) (c : t) : t :=
  {| label := label c; canvasPosition := canvasPosition c; icon := icon c;
     color := color c; uuid := uuid c; attributes := Some a |}.
End Class.

Module Relationship.
Record t := {
  uuid : string;
  start : string;
  startLabel : string;
  endLabel : string;
  endId : string;
  label : string }.
End Relationship.

Record schema := {
  classes : list Class.t;
  relationships : list Relationship.t }.

(** ** Exceptions, log records and the converter's state *)

Inductive key := KInt (i : Z) | KStr (s : string).

Inductive exn := KeyError (k : key) | IndexError | ValueError (s : string).

Inductive result (A : Type) := Ok (a : A) | Err (e : exn).
Arguments Ok {A} a.
Arguments Err {A} e.

Inductive level := INFO | WARNING.



Inductive message :=
| Connecting (uri database : string)
| GotCounts (n_classes n_relationships : nat)
| MultipleLabels (node_type : string) (labels : list string)
| MultiplePropertyTypes (node_type : string) (property_types : list string)
| UnsupportedType (property_type node_type : string).

Record state := {
  _class_uuid : gmap Z string;
  uuid_calls : nat;
  randint_calls : nat;
  logger : list (level * message) }.

Definition M (A : Type) : Type := state -> result (A * state).

Definition ret {A} (a : A) : M A := fun s => Ok (a, s).

Definition bind {A B} (m : M A) (k : A -> M B) : M B :=
  fun s => match m s with
           | Ok (a, s') => k a s'
           | Err e => Err e
           end.

Definition raise {A} (e : exn) : M A := fun _ => Err e.

Notation "x <- m ;; k" := (bind m (fun x => k))
  (at level 100, m at next level, k at level 200, right associativity).
Notation "m ;;; k" := (bind m (fun _ => k))
  (at level 100, k at level 200, right associativity).

Fixpoint foldM {A B} (f : A -> B -> M A) (a : A) (l : list B) : M A :=
  match l with
  | [] => ret a
  | b :: l' => a' <- f a b ;; foldM f a' l'
  end.

Definition log_record (lv : level) (msg : message) : M unit :=
  fun s => Ok (tt, {| _class_uuid := _class_uuid s; uuid_calls := uuid_calls s;
                      randint_calls := randint_calls s;
                      logger := logger s ++ [(lv, msg)] |}).

Definition when (b : bool) (m : M unit) : M unit := if b then m else ret tt.

(** [d[k]] on the table of uuids. *)
Definition class_uuid_get (i : Z) : M string :=
  fun s => match _class_uuid s !! i with
           | Some u => Ok (u, s)
           | None => Err (KeyError (KInt i))
           end.

Definition class_uuid_set (i : Z) (u : string) : M unit :=
  fun s => Ok (tt, {| _class_uuid := <[i := u]> (_class_uuid s);
                      uuid_calls := uuid_calls s;
                      randint_calls := randint_calls s; logger := logger s |}).

(** ** The converter *)

Definition TYPES_MAPPING : dict string :=
  [("String", "STRING"); ("Long", "NUMBER"); ("Double", "DOUBLE");
   ("StringArray", "STRING"); ("Date", "DATE"); ("Point", "STRING");
   ("Boolean", "BOOLEAN")].

Section Converter.

(** [uuid4 n] is the string that the [n]-th evaluation of
    [str(uuid.uuid4())] yields, [randint n a b] the value of the [n]-th
    call [random.randint(a, b)]. *)
Variable uuid4 : nat -> string.
Variable randint : nat -> Z -> Z -> Z.

Definition call_uuid4 : M string :=
  fun s => Ok (uuid4 (uuid_calls s),
               {| _class_uuid := _class_uuid s; uuid_calls := S (uuid_calls s);
                  randint_calls := randint_calls s; logger := logger s |}).

Definition call_randint (a b : Z) : M Z :=
  fun s => Ok (randint (randint_calls s) a b,
               {| _class_uuid := _class_uuid s; uuid_calls := uuid_calls s;
                  randint_calls := S (randint_calls s); logger := logger s |}).

Definition _random_canvas_position : M CanvasPosition.t :=
  x <- call_randint 100 1200 ;;
  y <- call_randint 50 800 ;;
  ret {| CanvasPosition.x := x; CanvasPosition.y := y |}.

Definition _make_class (node : Node.t) : M Class.t :=
  class_uuid <- call_uuid4 ;;
  class_uuid_set (Node.id node) class_uuid ;;;
  position <- _random_canvas_position ;;
  ret {| Class.label := Node.name node;
         Class.canvasPosition := position;
         Class.icon := "mdi-circle-outline";
         Class.color := "#aaa";
         Class.uuid := class_uuid;
         Class.attributes := None |}.

Definition _make_rel (relation : Rel.t) : M Relationship.t :=
  let node_from := fst (Rel.nodes relation) in
  let node_to := snd (Rel.nodes relation) in
  rel_uuid <- call_uuid4 ;;
  start <- class_uuid_get (Node.id node_from) ;;
  endId <- class_uuid_get (Node.id node_to) ;;
  ret {| Relationship.uuid := rel_uuid;
         Relationship.start := start;
         Relationship.startLabel := Node.name node_from;
         Relationship.endLabel := Node.name node_to;
         Relationship.endId := endId;
         Relationship.label := Rel.type relation |}.

(** The two dictionary comprehensions of [populate_schema]. *)
Definition add_class (classes : dict Class.t) (node : Node.t)
  : M (dict Class.t) :=
  c <- _make_class node ;; ret (dict_set (Node.name node) c classes).

Definition add_rel (relationships : dict Relationship.t) (rel : Rel.t)
  : M (dict Relationship.t) :=
  r <- _make_rel rel ;; ret (dict_set (Rel.type rel) r relationships).

Definition populate_schema (nodes : list Node.t) (rels : list Rel.t)
  : M (dict Class.t * dict Relationship.t) :=
  classes <- foldM add_class [] nodes ;;
  relationships <- foldM add_rel [] rels ;;
  ret (classes, relationships).

Definition _to_hume_type (node : NodeTypeProperty.t) : M string :=
  let nodeType := NodeTypeProperty.nodeType node in
  let property_types := NodeTypeProperty.propertyTypes node in
  match property_types with
  | [] => raise IndexError
  | property_type :: _ =>
      when (bool_decide (1 < length property_types))
        (log_record WARNING (MultiplePropertyTypes nodeType property_types)) ;;;
      when (negb (dict_mem property_type TYPES_MAPPING))
        (log_record WARNING (UnsupportedType property_type nodeType)) ;;;
      ret (default "STRING" (dict_get property_type TYPES_MAPPING))
  end.

(** The body of the first loop of [collect_attributes];
    [labels = [label]] is [len(labels) == 1] with [label = labels[0]]. *)
Definition collect_step (attributes_map : dict (list Attribute.t))
    (node : NodeTypeProperty.t) : M (dict (list Attribute.t)) :=
  let labels := NodeTypeProperty.nodeLabels node in
  let property_name := NodeTypeProperty.propertyName node in
  let node_type := NodeTypeProperty.nodeType node in
  match labels with
  | [label] =>
      humeType <- _to_hume_type node ;;
      ret (dict_set label
             (default [] (dict_get label attributes_map)
                ++ [{| Attribute.label := property_name;
                       Attribute.type := humeType |}])
             attributes_map)
  | _ =>
      log_record WARNING (MultipleLabels node_type labels) ;;;
      ret attributes_map
  end.

(** The body of the second loop: [classes[key]['attributes'] = ...]. *)
Definition attach_step (classes : dict Class.t)
    (item : string * list Attribute.t) : M (dict Class.t) :=
  match dict_get item.1 classes with
  | Some c => ret (dict_set item.1 (Class.set_attributes item.2 c) classes)
  | None => raise (KeyError (KStr item.1))
  end.

(** The class objects are shared with the caller and updated in place, so
    the updated dictionary is handed back. *)
Definition collect_attributes (node_type_properties : list NodeTypeProperty.t)
    (classes : dict Class.t) : M (dict Class.t) :=
  attributes_map <- foldM collect_step [] node_type_properties ;;
  foldM attach_step classes attributes_map.

Definition init_state : state :=
  {| _class_uuid := ∅; uuid_calls := 0; randint_calls := 0; logger := [] |}.

(** [__init__] from its second statement on, given what the two schema
    procedures of the database return; [logger] collects the records
    handed to [self.logger], in the order of the calls.  The first
    statement, which sets the level of the logger, is in [Converter]
    below. *)
Definition __init__ (uri database : string)
    (nodes : list Node.t) (rels : list Rel.t)
    (node_type_properties : list NodeTypeProperty.t) : result (schema * state) :=
  (log_record INFO (Connecting uri database) ;;;
   cr <- populate_schema nodes rels ;;
   log_record INFO (GotCounts (length cr.1) (length cr.2)) ;;;
   classes <- collect_attributes node_type_properties cr.1 ;;
   ret {| classes := dict_values classes;
          relationships := dict_values cr.2 |}) init_state.




End Converter.

(** ** Notions used to state the properties *)

(** The keys of a dictionary after one more assignment [d[k] = v]. *)
Definition keys_add (ks : list string) (k : string) : list string :=
  if decide (k ∈ ks) then ks else ks ++ [k].

(** The data types of the Hume schema format. *)
Definition HUME_TYPES : list string :=
  ["STRING"; "NUMBER"; "DOUBLE"; "DATE"; "BOOLEAN"].

(** [a] is the attribute that stands for the property record [node]: its
    name, and the table's entry for the first type observed. *)
Definition attribute_of (node : NodeTypeProperty.t) (a : Attribute.t) : Prop :=
  Attribute.label a = NodeTypeProperty.propertyName node ∧
  ∃ t ts, NodeTypeProperty.propertyTypes node = t :: ts ∧
          Attribute.type a = default "STRING" (dict_get t TYPES_MAPPING).

(** Two class objects that differ at most in their ['attributes']. *)
Definition same_display (c c' : Class.t) : Prop :=
  Class.label c' = Class.label c ∧
  Class.uuid c' = Class.uuid c ∧
  Class.canvasPosition c' = Class.canvasPosition c ∧
  Class.icon c' = Class.icon c ∧
  Class.color c' = Class.color c.

(** An entry of the dictionary of classes and the entry it becomes when
    ['attributes'] is assigned. *)
Definition same_entry (kc kc' : string * Class.t) : Prop :=
  kc'.1 = kc.1 ∧ same_display kc.2 kc'.2.

(** Both end nodes of a relationship record are among the given node ids. *)
Definition endpoints_in (ids : list Z) (r : Rel.t) : Prop :=
  Node.id (Rel.nodes r).1 ∈ ids ∧ Node.id (Rel.nodes r).2 ∈ ids.

(** The records of [node_type_properties] that name the one label [l]. *)
Definition records_of (l : string) (props : list NodeTypeProperty.t)
  : list NodeTypeProperty.t :=
  filter (λ p, NodeTypeProperty.nodeLabels p = [l]) props.

(** ** Sample values *)

Definition URI : string := "bolt://localhost:7687".
Definition DATABASE : string := "neo4j".

Definition uuid4_demo (n : nat) : string := "uuid-" +:+ pretty n.
Definition randint_demo (n : nat) (a b : Z) : Z := a.

Definition person : Node.t := {| Node.id := 0; Node.name := "Person" |}.
Definition person' : Node.t := {| Node.id := 1; Node.name := "Person" |}.
Definition company : Node.t := {| Node.id := 2; Node.name := "Company" |}.

Definition knows : Rel.t := {| Rel.type := "KNOWS"; Rel.nodes := (person, person') |}.
Definition works_at : Rel.t :=
  {| Rel.type := "WORKS_AT"; Rel.nodes := (person, company) |}.

Definition person_age : NodeTypeProperty.t :=
  {| NodeTypeProperty.nodeLabels := ["Person"];
     NodeTypeProperty.propertyName := "age";
     NodeTypeProperty.nodeType := ":`Person`";
     NodeTypeProperty.propertyTypes := ["Long"] |}.
Definition person_company_since : NodeTypeProperty.t :=
  {| NodeTypeProperty.nodeLabels := ["Person"; "Company"];
     NodeTypeProperty.propertyName := "since";
     NodeTypeProperty.nodeType := ":`Person`:`Company`";
     NodeTypeProperty.propertyTypes := ["Date"] |}.
Definition city_name : NodeTypeProperty.t :=
  {| NodeTypeProperty.nodeLabels := ["City"];
     NodeTypeProperty.propertyName := "name";
     NodeTypeProperty.nodeType := ":`City`";
     NodeTypeProperty.propertyTypes := ["String"] |}.

(** The state in which [__init__] calls [populate_schema]: the table is
    empty and the connection has been logged. *)
Definition connected (uri database : string) : state :=
  {| _class_uuid := ∅; uuid_calls := 0; randint_calls := 0;
     logger := [(INFO, Connecting uri database)] |}.

Definition sample_classes : dict Class.t :=
  [("Person",
    {| Class.label := "Person";
       Class.canvasPosition := {| CanvasPosition.x := 100; CanvasPosition.y := 50 |};
       Class.icon := "mdi-circle-outline"; Class.color := "#aaa";
       Class.uuid := "uuid-0"; Class.attributes := None |});
   ("Company",
    {| Class.label := "Company";
       Class.canvasPosition := {| CanvasPosition.x := 100; CanvasPosition.y := 50 |};
       Class.icon := "mdi-circle-outline"; Class.color := "#aaa";
       Class.uuid := "uuid-1"; Class.attributes := None |})].

(** The warnings that [collect_attributes] logs for one property record. *)
Definition record_warnings (node : NodeTypeProperty.t) : list (level * message) :=
  let nodeType := NodeTypeProperty.nodeType node in
  let property_types := NodeTypeProperty.propertyTypes node in
  match NodeTypeProperty.nodeLabels node with
  | [_] =>
      match property_types with
      | [] => []
      | property_type :: _ =>
          (if bool_decide (1 < length property_types)
           then [(WARNING, MultiplePropertyTypes nodeType property_types)]
           else []) ++
          (if dict_mem property_type TYPES_MAPPING
           then []
           else [(WARNING, UnsupportedType property_type nodeType)])
      end
  | labels => [(WARNING, MultipleLabels nodeType labels)]
  end.

(** The contract of [random.randint(a, b)]: a value from [a] to [b]. *)
Definition randint_in_range (randint : nat → Z → Z → Z) : Prop :=
  ∀ n a b, (a ≤ b)%Z → (a ≤ randint n a b ≤ b)%Z.

Definition person_name_untyped : NodeTypeProperty.t :=
  {| NodeTypeProperty.nodeLabels := ["Person"];
     NodeTypeProperty.propertyName := "name";
     NodeTypeProperty.nodeType := ":`Person`";
     NodeTypeProperty.propertyTypes := [] |}.
Definition company_shape : NodeTypeProperty.t :=
  {| NodeTypeProperty.nodeLabels := ["Company"];
     NodeTypeProperty.propertyName := "shape";
     NodeTypeProperty.nodeType := ":`Company`";
     NodeTypeProperty.propertyTypes := ["Alien"; "String"] |}.
Definition person_born : NodeTypeProperty.t :=
  {| NodeTypeProperty.nodeLabels := ["Person"];
     NodeTypeProperty.propertyName := "born";
     NodeTypeProperty.nodeType := ":`Person`";
     NodeTypeProperty.propertyTypes := ["Date"; "Long"] |}.
Definition self_loop : Rel.t :=
  {| Rel.type := "MANAGES"; Rel.nodes := (person, person) |}.

(** The mapping table as the specification gives it, entry by entry:
    [v] is the target type of the source type [t]. *)
Definition spec_type_mapping (t v : string) : Prop :=
  (t = "String" → v = "STRING") ∧
  (t = "Long" → v = "NUMBER") ∧
  (t = "Double" → v = "DOUBLE") ∧
  (t = "StringArray" → v = "STRING") ∧
  (t = "Date" → v = "DATE") ∧
  (t = "Point" → v = "STRING") ∧
  (t = "Boolean" → v = "BOOLEAN") ∧
  (t ∉ ["String"; "Long"; "Double"; "StringArray"; "Date"; "Point"; "Boolean"] →
   v = "STRING").

(** ** Ordered dictionaries: lookup after update, keys and values *)

Section Dict.
Context {V : Type}.
Implicit Types (d : dict V) (k : string) (v : V).

Lemma dict_get_set_eq k v d : dict_get k (dict_set k v d) = Some v.
Proof.
  induction d as [|[k' v'] d IH]; simpl; repeat case_decide; simpl;
    repeat case_decide; congruence.
Qed.

Lemma dict_get_set_ne k k' v d :
  k ≠ k' → dict_get k' (dict_set k v d) = dict_get k' d.
Proof.
  intros Hne. induction d as [|[k0 v0] d IH]; simpl; repeat case_decide; simpl;
    repeat case_decide; congruence.
Qed.

Lemma dict_get_None k d : dict_get k d = None ↔ k ∉ dict_keys d.
Proof.
  unfold dict_keys. induction d as [|[k' v'] d IH]; simpl.
  - split; [intros _; apply not_elem_of_nil | done].
  - rewrite not_elem_of_cons, <- IH. case_decide; split; try done.
    + by intros [? _].
    + by intros [_ ?].
Qed.

Lemma dict_get_Some_elem k v d : dict_get k d = Some v → (k, v) ∈ d.
Proof.
  induction d as [|[k' v'] d IH]; simpl; [done|].
  case_decide; intros Hg.
  - simplify_eq. left.
  - right. auto.
Qed.

Lemma dict_get_Some_value k v d : dict_get k d = Some v → v ∈ dict_values d.
Proof.
  intros Hg%dict_get_Some_elem. unfold dict_values.
  apply list_elem_of_fmap. by exists (k, v).
Qed.

Lemma dict_elem_get k v d : NoDup (dict_keys d) → (k, v) ∈ d → dict_get k d = Some v.
Proof.
  unfold dict_keys. induction d as [|[k' v'] d IH]; simpl.
  - intros _ Hin. by apply elem_of_nil in Hin.
  - intros [Hk' Hnd]%NoDup_cons [Heq|Hin]%elem_of_cons.
    + simplify_eq. by rewrite decide_True.
    + case_decide; [|auto]. subst k'. exfalso. apply Hk'.
      apply list_elem_of_fmap. by exists (k, v).
Qed.

Lemma dict_set_absent k v d : dict_get k d = None → dict_set k v d = d ++ [(k, v)].
Proof.
  induction d as [|[k' v'] d IH]; simpl; [done|].
  case_decide; [done|]. intros Hg. by rewrite IH.
Qed.

Lemma dict_set_keys_present k v d :
  is_Some (dict_get k d) → dict_keys (dict_set k v d) = dict_keys d.
Proof.
  unfold dict_keys. induction d as [|[k' v'] d IH]; simpl.
  - by intros [? ?].
  - case_decide; simpl; [by subst|]. intros Hs. f_equal. by apply IH.
Qed.

Lemma dict_set_values_elem k v x d :
  x ∈ dict_values (dict_set k v d) → x = v ∨ x ∈ dict_values d.
Proof.
  unfold dict_values. induction d as [|[k' v'] d IH]; simpl.
  - intros ->%list_elem_of_singleton. by left.
  - case_decide; simpl; rewrite !elem_of_cons; tauto.
Qed.

Lemma dict_length_keys d : length d = length (dict_keys d).
Proof. unfold dict_keys. by rewrite length_fmap. Qed.

End Dict.

(** ** Keys of a dictionary built by successive assignments *)

Lemma dict_set_keys {V} (k : string) (v : V) (d : dict V) :
  dict_keys (dict_set k v d) = keys_add (dict_keys d) k.
Proof.
  unfold keys_add. case_decide as Hk.
  - apply dict_set_keys_present. destruct (dict_get k d) eqn:Hg; [by eexists|].
    by apply dict_get_None in Hg.
  - apply dict_get_None in Hk. rewrite (dict_set_absent _ _ _ Hk).
    unfold dict_keys. by rewrite fmap_app.
Qed.

Lemma keys_add_NoDup ks k : NoDup ks → NoDup (keys_add ks k).
Proof.
  intros Hnd. unfold keys_add. case_decide; [done|].
  apply NoDup_app. split_and!; [done| |apply NoDup_singleton].
  intros x Hx ->%list_elem_of_singleton. done.
Qed.

Lemma elem_of_keys_add ks k x : x ∈ keys_add ks k ↔ x ∈ ks ∨ x = k.
Proof.
  unfold keys_add. case_decide.
  - split; [by left|]. by intros [?| ->].
  - by rewrite elem_of_app, list_elem_of_singleton.
Qed.

Lemma foldl_keys_add_NoDup l : ∀ ks, NoDup ks → NoDup (foldl keys_add ks l).
Proof. induction l as [|k l IH]; simpl; auto using keys_add_NoDup. Qed.

Lemma elem_of_foldl_keys_add l x :
  ∀ ks, x ∈ foldl keys_add ks l ↔ x ∈ ks ∨ x ∈ l.
Proof.
  induction l as [|k l IH]; simpl; intros ks.
  - rewrite elem_of_nil. tauto.
  - rewrite IH, elem_of_keys_add, elem_of_cons. tauto.
Qed.

(** From the empty dictionary, as many keys as there are distinct ones. *)
Lemma foldl_keys_add_length l :
  length (foldl keys_add [] l) = length (remove_dups l).
Proof.
  apply Permutation_length, NoDup_Permutation.
  - apply foldl_keys_add_NoDup, NoDup_nil_2.
  - apply NoDup_remove_dups.
  - intros x. rewrite elem_of_foldl_keys_add, elem_of_remove_dups, elem_of_nil.
    tauto.
Qed.

(** An assignment keeps the values pairwise distinct under [g] when the
    new value is distinct from all of them. *)
Lemma dict_set_values_NoDup {V W} (g : V → W) k v (d : dict V) :
  NoDup (g <$> dict_values d) → g v ∉ g <$> dict_values d →
  NoDup (g <$> dict_values (dict_set k v d)).
Proof.
  unfold dict_values. induction d as [|[k' v'] d IH]; simpl.
  - intros _ _. apply NoDup_singleton.
  - intros [Hv' Hnd]%NoDup_cons [Hne Hv]%not_elem_of_cons.
    case_decide; simpl; apply NoDup_cons; split; auto.
    intros (x & Hgx & Hx)%list_elem_of_fmap.
    apply (dict_set_values_elem k v x d) in Hx as [->|Hx]; [congruence|].
    apply Hv'. rewrite Hgx. by apply list_elem_of_fmap_2.
Qed.

(** ** Running the state and exception monad *)

Section Monad.
Context {A B : Type}.
Implicit Types (m : M A) (k : A → M B) (s : state).

Lemma bind_Ok m k s a s' : m s = Ok (a, s') → bind m k s = k a s'.
Proof. unfold bind. by intros ->. Qed.

Lemma bind_Err m k s e : m s = Err e → bind m k s = Err e.
Proof. unfold bind. by intros ->. Qed.

Lemma bind_Ok_inv m k s r :
  bind m k s = Ok r → ∃ a s', m s = Ok (a, s') ∧ k a s' = Ok r.
Proof. unfold bind. destruct (m s) as [[a s']|e]; [eauto|done]. Qed.

Lemma bind_Err_inv m k s e :
  bind m k s = Err e → m s = Err e ∨ ∃ a s', m s = Ok (a, s') ∧ k a s' = Err e.
Proof.
  unfold bind. destruct (m s) as [[a s']|e']; [eauto|].
  intros [= ->]. by left.
Qed.

End Monad.

Lemma foldM_app {A B} (f : A → B → M A) (l1 l2 : list B) :
  ∀ a s, foldM f a (l1 ++ l2) s = bind (foldM f a l1) (λ a', foldM f a' l2) s.
Proof.
  induction l1 as [|b l1 IH]; intros a s; simpl; [done|].
  unfold bind. destruct (f a b s) as [[a1 s1]|e]; [|done].
  rewrite IH. done.
Qed.

(** A loop whose every step is one assignment [d[key b] = v]. *)
Section AssignLoop.
Context {B V : Type} (f : dict V → B → M (dict V)) (key : B → string).
Hypothesis step_assigns : ∀ d b s d' s',
  f d b s = Ok (d', s') → ∃ v, d' = dict_set (key b) v d.

Lemma foldM_assign_keys l : ∀ d s d' s',
  foldM f d l s = Ok (d', s') →
  dict_keys d' = foldl keys_add (dict_keys d) (key <$> l).
Proof.
  induction l as [|b l IH]; simpl; intros d s d' s' Hrun.
  - by injection Hrun as -> ->.
  - apply bind_Ok_inv in Hrun as (d1 & s1 & Hstep & Hrest).
    apply step_assigns in Hstep as [v ->].
    rewrite (IH _ _ _ _ Hrest). by rewrite dict_set_keys.
Qed.

Lemma foldM_assign_other l k : ∀ d s d' s',
  foldM f d l s = Ok (d', s') → k ∉ key <$> l → dict_get k d' = dict_get k d.
Proof.
  induction l as [|b l IH]; simpl; intros d s d' s' Hrun Hk.
  - by injection Hrun as -> ->.
  - apply bind_Ok_inv in Hrun as (d1 & s1 & Hstep & Hrest).
    apply step_assigns in Hstep as [v ->].
    apply not_elem_of_cons in Hk as [Hne Hk].
    rewrite (IH _ _ _ _ Hrest Hk). by apply dict_get_set_ne.
Qed.

Lemma foldM_assign_length l s d' s' :
  foldM f [] l s = Ok (d', s') → length d' = length (remove_dups (key <$> l)).
Proof.
  intros Hrun. rewrite dict_length_keys, (foldM_assign_keys _ _ _ _ _ Hrun).
  apply foldl_keys_add_length.
Qed.

Lemma foldM_assign_keys_NoDup l d s d' s' :
  foldM f d l s = Ok (d', s') → NoDup (dict_keys d) → NoDup (dict_keys d').
Proof.
  intros Hrun Hnd. rewrite (foldM_assign_keys _ _ _ _ _ Hrun).
  by apply foldl_keys_add_NoDup.
Qed.

End AssignLoop.

(** ** [populate_schema]: the loop over the node records *)

Section Populate.
Variable uuid4 : nat → string.
Variable randint : nat → Z → Z → Z.

Lemma add_class_run d n s :
  ∃ c s', _make_class uuid4 randint n s = Ok (c, s') ∧
          add_class uuid4 randint d n s = Ok (dict_set (Node.name n) c d, s') ∧
          Class.label c = Node.name n ∧
          Class.uuid c = uuid4 (uuid_calls s) ∧
          Class.attributes c = None ∧
          _class_uuid s' = <[Node.id n := Class.uuid c]> (_class_uuid s) ∧
          uuid_calls s' = S (uuid_calls s) ∧
          logger s' = logger s.
Proof. eexists _, _. split_and!; reflexivity. Qed.

Lemma add_class_assigns d n s d' s' :
  add_class uuid4 randint d n s = Ok (d', s') →
  ∃ c, d' = dict_set (Node.name n) c d.
Proof.
  destruct (add_class_run d n s) as (c & s1 & _ & Hadd & _).
  rewrite Hadd. intros [= <- <-]. by exists c.
Qed.

(** The loop never raises; it leaves the log alone and records every
    node id in the table. *)
Lemma class_loop_total nodes : ∀ d s,
  ∃ d' s', foldM (add_class uuid4 randint) d nodes s = Ok (d', s') ∧
           logger s' = logger s ∧
           uuid_calls s' = (uuid_calls s + length nodes)%nat ∧
           ∀ i, _class_uuid s' !! i = None ↔
                _class_uuid s !! i = None ∧ i ∉ Node.id <$> nodes.
Proof.
  induction nodes as [|n nodes IH]; intros d s; simpl.
  - eexists _, _. split_and!; [done|done|lia|]. intros i.
    rewrite elem_of_nil. tauto.
  - destruct (add_class_run d n s) as (c & s1 & _ & Hadd & _ & _ & _ & Htab & Hcnt & Hlog).
    rewrite (bind_Ok _ _ _ _ _ Hadd).
    destruct (IH (dict_set (Node.name n) c d) s1) as (d' & s' & Hrun & Hlog' & Hcnt' & Htab').
    exists d', s'. split_and!; [done|congruence|lia|]. intros i.
    rewrite Htab', Htab, not_elem_of_cons, lookup_insert_None.
    intuition congruence.
Qed.

Lemma class_loop_attributes nodes : ∀ d s d' s',
  foldM (add_class uuid4 randint) d nodes s = Ok (d', s') →
  (∀ k c, dict_get k d = Some c → Class.label c = k ∧ Class.attributes c = None) →
  ∀ k c, dict_get k d' = Some c → Class.label c = k ∧ Class.attributes c = None.
Proof.
  induction nodes as [|n nodes IH]; simpl; intros d s d' s' Hrun Hd.
  - by injection Hrun as <- <-.
  - destruct (add_class_run d n s) as (c & s1 & _ & Hadd & Hl & _ & Ha & _).
    rewrite (bind_Ok _ _ _ _ _ Hadd) in Hrun.
    apply (IH _ _ _ _ Hrun). intros k c'.
    destruct (decide (Node.name n = k)) as [<-|Hne].
    + rewrite dict_get_set_eq. by intros [= <-].
    + rewrite dict_get_set_ne by done. apply Hd.
Qed.

(** With pairwise distinct labels no class is dropped, so every uuid in the
    table is the uuid of a class of the dictionary. *)
Lemma class_loop_table nodes : ∀ d s d' s',
  foldM (add_class uuid4 randint) d nodes s = Ok (d', s') →
  NoDup (Node.name <$> nodes) →
  (∀ n, n ∈ nodes → dict_get (Node.name n) d = None) →
  (∀ i u, _class_uuid s !! i = Some u →
          ∃ c, c ∈ dict_values d ∧ Class.uuid c = u) →
  ∀ i u, _class_uuid s' !! i = Some u →
         ∃ c, c ∈ dict_values d' ∧ Class.uuid c = u.
Proof.
  induction nodes as [|n nodes IH]; simpl; intros d s d' s' Hrun Hnd Hfresh Htab.
  - by injection Hrun as <- <-.
  - destruct (add_class_run d n s) as (c & s1 & _ & Hadd & _ & _ & _ & Hs1 & _).
    rewrite (bind_Ok _ _ _ _ _ Hadd) in Hrun.
    apply NoDup_cons in Hnd as [Hn Hnd].
    assert (Hset : dict_set (Node.name n) c d = d ++ [(Node.name n, c)]).
    { apply dict_set_absent, Hfresh. left. }
    apply (IH _ _ _ _ Hrun Hnd).
    + intros n' Hn'. rewrite dict_get_set_ne; [apply Hfresh; by right|].
      intros Heq. apply Hn. rewrite Heq. by apply list_elem_of_fmap_2.
    + intros i u. rewrite Hs1, Hset. unfold dict_values. rewrite fmap_app.
      destruct (decide (Node.id n = i)) as [<-|Hne].
      * rewrite lookup_insert_eq. intros [= <-]. exists c.
        split; [|done]. apply elem_of_app. right. simpl. left.
      * rewrite lookup_insert_ne by done. intros (c' & Hc' & Hu)%Htab.
        exists c'. split; [|done]. apply elem_of_app. by left.
Qed.

(** Distinct calls of [uuid4] giving distinct strings, the classes of the
    dictionary have pairwise distinct uuids. *)
Lemma class_loop_uuids nodes : ∀ d s d' s',
  foldM (add_class uuid4 randint) d nodes s = Ok (d', s') →
  (∀ i j, (i < uuid_calls s + length nodes)%nat →
          (j < uuid_calls s + length nodes)%nat → uuid4 i = uuid4 j → i = j) →
  NoDup (Class.uuid <$> dict_values d) →
  (∀ c, c ∈ dict_values d → ∃ i, (i < uuid_calls s)%nat ∧ Class.uuid c = uuid4 i) →
  NoDup (Class.uuid <$> dict_values d').
Proof.
  induction nodes as [|n nodes IH]; simpl; intros d s d' s' Hrun Hinj Hnd Hold.
  - by injection Hrun as <- <-.
  - destruct (add_class_run d n s) as (c & s1 & _ & Hadd & _ & Hu & _ & _ & Hcnt & _).
    rewrite (bind_Ok _ _ _ _ _ Hadd) in Hrun.
    apply (IH _ _ _ _ Hrun).
    + intros i j Hi Hj. apply Hinj; lia.
    + apply dict_set_values_NoDup; [done|].
      intros (c' & Heq & Hc')%list_elem_of_fmap.
      destruct (Hold _ Hc') as (i & Hi & Hui).
      assert (uuid_calls s = i); [|lia].
      apply Hinj; [lia|lia|congruence].
    + intros c' [->|Hc']%dict_set_values_elem.
      * exists (uuid_calls s). split; [lia|done].
      * destruct (Hold _ Hc') as (i & Hi & Hui). exists i. split; [lia|done].
Qed.

(** ** [populate_schema]: the loop over the relationship records *)

Lemma make_rel_inv r s x s' :
  _make_rel uuid4 r s = Ok (x, s') →
  _class_uuid s !! Node.id (Rel.nodes r).1 = Some (Relationship.start x) ∧
  _class_uuid s !! Node.id (Rel.nodes r).2 = Some (Relationship.endId x) ∧
  _class_uuid s' = _class_uuid s ∧ logger s' = logger s.
Proof.
  destruct s as [tab u rc lg].
  unfold _make_rel, bind, call_uuid4, class_uuid_get, ret. cbn.
  destruct (tab !! Node.id (Rel.nodes r).1) as [a|]; cbn; [|done].
  destruct (tab !! Node.id (Rel.nodes r).2) as [b|]; cbn; [|done].
  by intros [= <- <-].
Qed.

Lemma make_rel_Ok r s :
  is_Some (_class_uuid s !! Node.id (Rel.nodes r).1) →
  is_Some (_class_uuid s !! Node.id (Rel.nodes r).2) →
  ∃ x s', _make_rel uuid4 r s = Ok (x, s').
Proof.
  destruct s as [tab u rc lg]. simpl. intros [a Ha] [b Hb].
  unfold _make_rel, bind, call_uuid4, class_uuid_get, ret. cbn.
  rewrite Ha. cbn. rewrite Hb. by eexists _, _.
Qed.

Lemma make_rel_Err r s :
  _class_uuid s !! Node.id (Rel.nodes r).1 = None ∨
  _class_uuid s !! Node.id (Rel.nodes r).2 = None →
  ∃ k, _make_rel uuid4 r s = Err (KeyError (KInt k)) ∧ _class_uuid s !! k = None.
Proof.
  destruct s as [tab u rc lg]. simpl. intros Habs.
  unfold _make_rel, bind, call_uuid4, class_uuid_get, ret. cbn.
  destruct (tab !! Node.id (Rel.nodes r).1) as [a|] eqn:Ha.
  - destruct Habs as [?|Hb]; [done|]. cbn. rewrite Hb. by eexists.
  - by eexists.
Qed.

Lemma add_rel_assigns d r s d' s' :
  add_rel uuid4 d r s = Ok (d', s') → ∃ x, d' = dict_set (Rel.type r) x d.
Proof.
  unfold add_rel. intros (x & s1 & _ & Hret)%bind_Ok_inv.
  injection Hret as <- <-. by exists x.
Qed.

Lemma add_rel_inv d r s d' s' :
  add_rel uuid4 d r s = Ok (d', s') →
  ∃ x, _make_rel uuid4 r s = Ok (x, s') ∧ d' = dict_set (Rel.type r) x d.
Proof.
  unfold add_rel. intros (x & s1 & Hmk & Hret)%bind_Ok_inv.
  injection Hret as <- <-. by exists x.
Qed.

Lemma rel_loop_inv rels : ∀ d s d' s',
  foldM (add_rel uuid4) d rels s = Ok (d', s') →
  _class_uuid s' = _class_uuid s ∧ logger s' = logger s ∧
  ∀ x, x ∈ dict_values d' →
       x ∈ dict_values d ∨
       ∃ i j, _class_uuid s !! i = Some (Relationship.start x) ∧
              _class_uuid s !! j = Some (Relationship.endId x).
Proof.
  induction rels as [|r rels IH]; simpl; intros d s d' s' Hrun.
  - injection Hrun as <- <-. auto.
  - apply bind_Ok_inv in Hrun as (d1 & s1 & Hstep & Hrest).
    unfold add_rel in Hstep.
    apply bind_Ok_inv in Hstep as (x & s1' & Hmk & Hret).
    injection Hret as <- <-.
    apply make_rel_inv in Hmk as (Hfrom & Hto & Htab & Hlog).
    apply IH in Hrest as (Htab' & Hlog' & Hvals).
    split_and!; [congruence|congruence|].
    intros x' [Hx'|(i & j & Hi & Hj)]%Hvals.
    + apply dict_set_values_elem in Hx' as [->|Hx']; [|by left].
      right. eauto.
    + right. exists i, j. by rewrite <- Htab.
Qed.

Lemma rel_loop_Ok rels : ∀ d s,
  (∀ r, r ∈ rels → is_Some (_class_uuid s !! Node.id (Rel.nodes r).1) ∧
                   is_Some (_class_uuid s !! Node.id (Rel.nodes r).2)) →
  ∃ d' s', foldM (add_rel uuid4) d rels s = Ok (d', s').
Proof.
  induction rels as [|r rels IH]; simpl; intros d s Hknown.
  - by eexists _, _.
  - destruct (Hknown r) as [Hfrom Hto]; [left|].
    destruct (make_rel_Ok r s Hfrom Hto) as (x & s1 & Hmk).
    unfold add_rel. rewrite (bind_Ok _ _ _ _ _ (bind_Ok _ _ _ _ _ Hmk)).
    apply make_rel_inv in Hmk as (_ & _ & Htab & _).
    apply IH. intros r' Hr'. rewrite Htab. apply Hknown. by right.
Qed.

(** One record with an end node outside the table stops the loop. *)
Lemma rel_loop_Err rels : ∀ d s r,
  r ∈ rels →
  _class_uuid s !! Node.id (Rel.nodes r).1 = None ∨
  _class_uuid s !! Node.id (Rel.nodes r).2 = None →
  ∃ k, foldM (add_rel uuid4) d rels s = Err (KeyError (KInt k)) ∧
       _class_uuid s !! k = None.
Proof.
  induction rels as [|r0 rels IH]; simpl; intros d s r Hr Habs.
  - by apply elem_of_nil in Hr.
  - destruct (_make_rel uuid4 r0 s) as [[x s1]|e] eqn:Hmk.
    + unfold add_rel. rewrite (bind_Ok _ _ _ _ _ (bind_Ok _ _ _ _ _ Hmk)).
      apply make_rel_inv in Hmk as (Hfrom & Hto & Htab & _).
      apply elem_of_cons in Hr as [->|Hr].
      { destruct Habs; congruence. }
      destruct (IH (dict_set (Rel.type r0) x d) s1 r Hr) as (k & Hrun & Hk).
      { by rewrite Htab. }
      exists k. by rewrite <- Htab.
    + destruct (_class_uuid s !! Node.id (Rel.nodes r0).1) as [a|] eqn:Ha;
        [destruct (_class_uuid s !! Node.id (Rel.nodes r0).2) as [b|] eqn:Hb|].
      * destruct (make_rel_Ok r0 s) as (x & s1 & Hmk'); [by eexists..|congruence].
      * destruct (make_rel_Err r0 s) as (k & Hmk' & Hk); [by right|].
        exists k. unfold add_rel.
        by rewrite (bind_Err _ _ _ _ (bind_Err _ _ _ _ Hmk')).
      * destruct (make_rel_Err r0 s) as (k & Hmk' & Hk); [by left|].
        exists k. unfold add_rel.
        by rewrite (bind_Err _ _ _ _ (bind_Err _ _ _ _ Hmk')).
Qed.

End Populate.
(** ** [_to_hume_type] and the first loop of [collect_attributes] *)

Lemma to_hume_type_run node t ts s :
  NodeTypeProperty.propertyTypes node = t :: ts →
  ∃ s', _to_hume_type node s = Ok (default "STRING" (dict_get t TYPES_MAPPING), s') ∧
        (∃ extra, logger s' = logger s ++ extra) ∧
        (dict_get t TYPES_MAPPING = None →
         (WARNING, UnsupportedType t (NodeTypeProperty.nodeType node)) ∈ logger s').
Proof.
  intros Hty. unfold _to_hume_type, dict_mem. rewrite Hty.
  destruct s as [tab u rc lg].
  destruct (bool_decide (1 < length (t :: ts))),
    (dict_get t TYPES_MAPPING) as [h|];
    cbn; eexists; (split_and!; [reflexivity|cbn|cbn; intros Hnone]);
    try discriminate Hnone;
    try (by exists []; rewrite app_nil_r); try (by eexists);
    try (rewrite <- app_assoc; by eexists).
  - rewrite !elem_of_app. right. apply list_elem_of_singleton. done.
  - rewrite !elem_of_app. right. apply list_elem_of_singleton. done.
Qed.

Lemma to_hume_type_nil node s :
  NodeTypeProperty.propertyTypes node = [] → _to_hume_type node s = Err IndexError.
Proof. intros Hty. unfold _to_hume_type. by rewrite Hty. Qed.

Lemma not_single_length (ls : list string) :
  length ls ≠ 1 ↔ ∀ l, ls ≠ [l].
Proof.
  split.
  - intros Hlen l ->. by apply Hlen.
  - intros Hne Hlen. destruct ls as [|l [|l' ls]]; try done. by apply (Hne l).
Qed.

(** A record naming one label adds its attribute to the list of that
    label; any other record only logs a warning. *)
Lemma collect_step_single amap node l t ts s :
  NodeTypeProperty.nodeLabels node = [l] →
  NodeTypeProperty.propertyTypes node = t :: ts →
  ∃ a s', collect_step amap node s =
            Ok (dict_set l (default [] (dict_get l amap) ++ [a]) amap, s') ∧
          attribute_of node a ∧
          ∃ extra, logger s' = logger s ++ extra.
Proof.
  intros Hl Hty. unfold collect_step. rewrite Hl.
  destruct (to_hume_type_run node t ts s Hty) as (s' & Hrun & Hlog & _).
  rewrite (bind_Ok _ _ _ _ _ Hrun). eexists _, s'. split_and!; [done| |done].
  split; [done|]. by exists t, ts.
Qed.

Lemma collect_step_single_nil amap node l s :
  NodeTypeProperty.nodeLabels node = [l] →
  NodeTypeProperty.propertyTypes node = [] →
  collect_step amap node s = Err IndexError.
Proof.
  intros Hl Hty. unfold collect_step. rewrite Hl.
  by rewrite (bind_Err _ _ _ _ (to_hume_type_nil node s Hty)).
Qed.

Lemma collect_step_skip amap node s :
  length (NodeTypeProperty.nodeLabels node) ≠ 1 →
  ∃ s', collect_step amap node s = Ok (amap, s') ∧
        logger s' = logger s ++
          [(WARNING, MultipleLabels (NodeTypeProperty.nodeType node)
                       (NodeTypeProperty.nodeLabels node))].
Proof.
  intros Hlen. unfold collect_step.
  destruct (NodeTypeProperty.nodeLabels node) as [|l [|l' ls]]; try done;
    by eexists.
Qed.

Lemma records_of_cons l p props :
  records_of l (p :: props) =
  if decide (NodeTypeProperty.nodeLabels p = [l])
  then p :: records_of l props else records_of l props.
Proof. reflexivity. Qed.

Lemma collect_loop_Err props : ∀ amap s e,
  foldM collect_step amap props s = Err e → e = IndexError.
Proof.
  induction props as [|p props IH]; simpl; intros amap s e Hrun; [done|].
  apply bind_Err_inv in Hrun as [Hstep|(amap1 & s1 & _ & Hrest)]; [|by eapply IH].
  destruct (decide (length (NodeTypeProperty.nodeLabels p) = 1)) as [Hlen|Hlen].
  - destruct (NodeTypeProperty.nodeLabels p) as [|l [|l' ls]] eqn:Hl; try done.
    destruct (NodeTypeProperty.propertyTypes p) as [|t ts] eqn:Hty.
    + rewrite (collect_step_single_nil amap p l s Hl Hty) in Hstep. congruence.
    + destruct (collect_step_single amap p l t ts s Hl Hty) as (a & s' & Hok & _).
      congruence.
  - destruct (collect_step_skip amap p s Hlen) as (s' & Hok & _). congruence.
Qed.

Lemma collect_loop_Ok props : ∀ amap s,
  (∀ p, p ∈ props → length (NodeTypeProperty.nodeLabels p) = 1 →
        NodeTypeProperty.propertyTypes p ≠ []) →
  ∃ amap' s', foldM collect_step amap props s = Ok (amap', s').
Proof.
  induction props as [|p props IH]; simpl; intros amap s Hty.
  - by eexists _, _.
  - assert (∃ amap1 s1, collect_step amap p s = Ok (amap1, s1)) as (amap1 & s1 & Hstep).
    { destruct (decide (length (NodeTypeProperty.nodeLabels p) = 1)) as [Hlen|Hlen].
      - destruct (NodeTypeProperty.nodeLabels p) as [|l [|l' ls]] eqn:Hl; try done.
        destruct (NodeTypeProperty.propertyTypes p) as [|t ts] eqn:Hts.
        + exfalso. apply (Hty p); [left| |done]. by rewrite Hl.
        + destruct (collect_step_single amap p l t ts s Hl Hts) as (a & s' & Hok & _).
          eauto.
      - destruct (collect_step_skip amap p s Hlen) as (s' & Hok & _). eauto. }
    rewrite (bind_Ok _ _ _ _ _ Hstep). apply IH.
    intros p' Hp'. apply Hty. by right.
Qed.

Lemma collect_loop_inv props : ∀ amap s amap' s',
  foldM collect_step amap props s = Ok (amap', s') →
  (∀ l, ∃ attrs,
      default [] (dict_get l amap') = default [] (dict_get l amap) ++ attrs ∧
      Forall2 attribute_of (records_of l props) attrs) ∧
  (∀ l, dict_get l amap' = None ↔
        dict_get l amap = None ∧ records_of l props = []) ∧
  (NoDup (dict_keys amap) → NoDup (dict_keys amap')) ∧
  ∃ extra, logger s' = logger s ++ extra ∧
           ∀ p, p ∈ props → length (NodeTypeProperty.nodeLabels p) ≠ 1 →
                (WARNING, MultipleLabels (NodeTypeProperty.nodeType p)
                            (NodeTypeProperty.nodeLabels p)) ∈ extra.
Proof.
  induction props as [|p props IH]; simpl; intros amap s amap' s' Hrun.
  - injection Hrun as <- <-. split_and!; [| |done|].
    + intros l. exists []. rewrite app_nil_r. split; [done|constructor].
    + intros l. tauto.
    + exists []. rewrite app_nil_r. split; [done|]. intros p Hp.
      by apply elem_of_nil in Hp.
  - apply bind_Ok_inv in Hrun as (amap1 & s1 & Hstep & Hrest).
    apply IH in Hrest as (Hattrs & Hnone & Hnd & extra & Hlog & Hwarn).
    destruct (decide (length (NodeTypeProperty.nodeLabels p) = 1)) as [Hlen|Hlen].
    + destruct (NodeTypeProperty.nodeLabels p) as [|l0 [|l' ls]] eqn:Hl; try done.
      destruct (NodeTypeProperty.propertyTypes p) as [|t ts] eqn:Hty.
      { rewrite (collect_step_single_nil amap p l0 s Hl Hty) in Hstep. congruence. }
      destruct (collect_step_single amap p l0 t ts s Hl Hty)
        as (a & s1' & Hok & Ha & extra0 & Hlog0).
      rewrite Hok in Hstep. injection Hstep as <- <-.
      split_and!.
      * intros l. destruct (Hattrs l) as (attrs & Heq & Hall).
        rewrite records_of_cons, Hl. case_decide as Hdec.
        -- injection Hdec as ->. exists (a :: attrs).
           rewrite Heq, dict_get_set_eq. simpl. rewrite <- app_assoc.
           split; [done|by constructor].
        -- exists attrs. rewrite Heq, dict_get_set_ne by congruence. done.
      * intros l. rewrite Hnone, records_of_cons, Hl. case_decide as Hdec.
        -- injection Hdec as ->. rewrite dict_get_set_eq.
           split; [by intros [? _]|by intros [_ ?]].
        -- rewrite dict_get_set_ne by congruence. done.
      * intros Hnd0. apply Hnd. rewrite dict_set_keys. by apply keys_add_NoDup.
      * exists (extra0 ++ extra). rewrite Hlog, Hlog0, app_assoc. split; [done|].
        intros p' [->|Hp']%elem_of_cons Hlen'.
        -- rewrite Hl in Hlen'. done.
        -- apply elem_of_app. right. by apply Hwarn.
    + destruct (collect_step_skip amap p s Hlen) as (s1' & Hok & Hlog0).
      rewrite Hok in Hstep. injection Hstep as <- <-.
      assert (Hrec : ∀ l, records_of l (p :: props) = records_of l props).
      { intros l. rewrite records_of_cons. case_decide as Hdec; [|done].
        rewrite Hdec in Hlen. done. }
      split_and!; [| |done|].
      * intros l. rewrite Hrec. apply Hattrs.
      * intros l. rewrite Hrec. apply Hnone.
      * eexists (_ ++ extra). rewrite Hlog, Hlog0, <- app_assoc. split; [done|].
        intros p' [->|Hp']%elem_of_cons Hlen'.
        -- apply elem_of_app. left. apply list_elem_of_singleton. done.
        -- apply elem_of_app. right. by apply Hwarn.
Qed.

(** ** The second loop of [collect_attributes] *)

Lemma same_display_refl c : same_display c c.
Proof. by repeat split. Qed.

Lemma same_display_trans c1 c2 c3 :
  same_display c1 c2 → same_display c2 c3 → same_display c1 c3.
Proof. unfold same_display. intuition congruence. Qed.

Lemma same_display_set_attributes a c : same_display c (Class.set_attributes a c).
Proof. by repeat split. Qed.

Lemma same_entries_refl (d : dict Class.t) : Forall2 same_entry d d.
Proof.
  induction d as [|kc d IH]; constructor; [|done].
  split; [done|apply same_display_refl].
Qed.

Lemma same_entries_trans (d1 d2 d3 : dict Class.t) :
  Forall2 same_entry d1 d2 → Forall2 same_entry d2 d3 → Forall2 same_entry d1 d3.
Proof.
  intros H12. revert d3. induction H12 as [|kc1 kc2 d1 d2 [Hk Hd] _ IH];
    intros d3 H23; inversion H23 as [|? kc3 ? d3' [Hk' Hd'] Hrest]; subst;
    constructor; [|by apply IH].
  split; [congruence|by eapply same_display_trans].
Qed.

Lemma dict_set_same_entries k c c' (d : dict Class.t) :
  dict_get k d = Some c → same_display c c' →
  Forall2 same_entry d (dict_set k c' d).
Proof.
  intros Hget Hsame. induction d as [|[k0 c0] d IH]; simpl in *; [done|].
  case_decide as Hk.
  - injection Hget as ->. subst k0. constructor; [by split|apply same_entries_refl].
  - constructor; [split; [done|apply same_display_refl]|by apply IH].
Qed.

Lemma same_entries_keys (d d' : dict Class.t) :
  Forall2 same_entry d d' → dict_keys d' = dict_keys d.
Proof.
  unfold dict_keys. induction 1 as [|kc kc' d d' [Hk _] _ IH]; [done|].
  rewrite !fmap_cons. by f_equal.
Qed.

Lemma same_entries_uuids (d d' : dict Class.t) :
  Forall2 same_entry d d' →
  Class.uuid <$> dict_values d' = Class.uuid <$> dict_values d.
Proof.
  unfold dict_values.
  induction 1 as [|kc kc' d d' [_ (_ & Hu & _)] _ IH]; [done|].
  rewrite !fmap_cons. by f_equal.
Qed.

Lemma attach_step_inv classes item s classes' s' :
  attach_step classes item s = Ok (classes', s') →
  s' = s ∧ ∃ c, dict_get item.1 classes = Some c ∧
                classes' = dict_set item.1 (Class.set_attributes item.2 c) classes.
Proof.
  unfold attach_step. destruct (dict_get item.1 classes) as [c|]; [|done].
  intros [= <- <-]. eauto.
Qed.

Lemma attach_loop_inv amap : ∀ classes s classes' s',
  foldM attach_step classes amap s = Ok (classes', s') →
  s' = s ∧ Forall2 same_entry classes classes'.
Proof.
  induction amap as [|item amap IH]; simpl; intros classes s classes' s' Hrun.
  - injection Hrun as <- <-. split; [done|apply same_entries_refl].
  - apply bind_Ok_inv in Hrun as (classes1 & s1 & Hstep & Hrest).
    apply attach_step_inv in Hstep as (-> & c & Hget & ->).
    apply IH in Hrest as [-> Hsame]. split; [done|].
    eapply same_entries_trans; [|done].
    eapply dict_set_same_entries; [done|apply same_display_set_attributes].
Qed.

(** What the loop leaves under each label. *)
Lemma attach_loop_get amap : ∀ classes s classes' s',
  foldM attach_step classes amap s = Ok (classes', s') →
  NoDup (dict_keys amap) →
  ∀ l, dict_get l classes' =
       match dict_get l amap with
       | Some a => Class.set_attributes a <$> dict_get l classes
       | None => dict_get l classes
       end.
Proof.
  induction amap as [|[k a] amap IH]; simpl; intros classes s classes' s' Hrun Hnd l.
  - by injection Hrun as <- <-.
  - apply bind_Ok_inv in Hrun as (classes1 & s1 & Hstep & Hrest).
    apply attach_step_inv in Hstep as (-> & c & Hget & ->). simpl in *.
    apply NoDup_cons in Hnd as [Hk Hnd].
    rewrite (IH _ _ _ _ Hrest Hnd l). case_decide as Hl.
    + subst l. apply dict_get_None in Hk. rewrite Hk, dict_get_set_eq, Hget. done.
    + rewrite dict_get_set_ne by done. done.
Qed.

Lemma attach_loop_Ok amap : ∀ classes s,
  (∀ k, k ∈ dict_keys amap → is_Some (dict_get k classes)) →
  ∃ classes', foldM attach_step classes amap s = Ok (classes', s).
Proof.
  induction amap as [|[k a] amap IH]; simpl; intros classes s Hkeys.
  - by eexists.
  - destruct (Hkeys k) as [c Hc]; [left|].
    unfold bind, attach_step at 1. simpl. rewrite Hc. simpl.
    apply IH. intros k' Hk'.
    destruct (decide (k = k')) as [<-|Hne].
    + rewrite dict_get_set_eq. by eexists.
    + rewrite dict_get_set_ne by done. apply Hkeys. by right.
Qed.

(** A key of the map without a class raises [KeyError] on that key or on
    an earlier one without a class. *)
Lemma attach_loop_Err amap : ∀ classes s k,
  k ∈ dict_keys amap → dict_get k classes = None →
  ∃ k', foldM attach_step classes amap s = Err (KeyError (KStr k')) ∧
        dict_get k' classes = None.
Proof.
  induction amap as [|[k0 a] amap IH]; simpl; intros classes s k Hk Hnone.
  - by apply elem_of_nil in Hk.
  - unfold bind, attach_step at 1. simpl.
    destruct (dict_get k0 classes) as [c|] eqn:Hget; simpl; [|by exists k0].
    assert (k ≠ k0) as Hne by congruence.
    apply elem_of_cons in Hk as [?|Hk]; [done|].
    destruct (IH (dict_set k0 (Class.set_attributes a c) classes) s k Hk)
      as (k' & Hrun & Hk').
    { rewrite dict_get_set_ne by done. done. }
    exists k'. split; [done|].
    destruct (decide (k0 = k')) as [<-|Hne'].
    + by rewrite dict_get_set_eq in Hk'.
    + by rewrite dict_get_set_ne in Hk'.
Qed.

(** ** [collect_attributes] as a whole *)

Lemma types_mapping_range t :
  default "STRING" (dict_get t TYPES_MAPPING) ∈ HUME_TYPES.
Proof.
  unfold TYPES_MAPPING, HUME_TYPES. simpl.
  repeat (case_decide; [simpl; set_solver|]). simpl. set_solver.
Qed.

Lemma types_mapping_unknown t :
  t ∉ ["String"; "Long"; "Double"; "StringArray"; "Date"; "Point"; "Boolean"] →
  dict_get t TYPES_MAPPING = None.
Proof.
  intros Hnew. unfold TYPES_MAPPING. simpl.
  repeat (case_decide; [exfalso; apply Hnew; subst t; set_solver|]).
  done.
Qed.

Lemma types_mapping_spec t :
  spec_type_mapping t (default "STRING" (dict_get t TYPES_MAPPING)).
Proof.
  unfold spec_type_mapping. split_and!; try (by intros ->).
  intros Hnew. by rewrite types_mapping_unknown.
Qed.

Lemma attribute_of_type p a : attribute_of p a → Attribute.type a ∈ HUME_TYPES.
Proof. intros (_ & t & ts & _ & ->). apply types_mapping_range. Qed.

Lemma collect_attributes_inv props classes s classes' s' :
  collect_attributes props classes s = Ok (classes', s') →
  Forall2 same_entry classes classes' ∧
  (∀ l c, dict_get l classes = Some c →
     ∃ c', dict_get l classes' = Some c' ∧ same_display c c' ∧
           (records_of l props = [] → c' = c) ∧
           (records_of l props ≠ [] →
            ∃ attrs, Class.attributes c' = Some attrs ∧
                     Forall2 attribute_of (records_of l props) attrs)) ∧
  (∀ l, records_of l props ≠ [] → is_Some (dict_get l classes)) ∧
  ∃ extra, logger s' = logger s ++ extra ∧
           ∀ p, p ∈ props → length (NodeTypeProperty.nodeLabels p) ≠ 1 →
                (WARNING, MultipleLabels (NodeTypeProperty.nodeType p)
                            (NodeTypeProperty.nodeLabels p)) ∈ extra.
Proof.
  unfold collect_attributes.
  intros (amap & s1 & Hloop1 & Hloop2)%bind_Ok_inv.
  destruct (collect_loop_inv _ _ _ _ _ Hloop1) as (Hattrs & Hnone & Hnd & Hlog).
  destruct (attach_loop_inv _ _ _ _ _ Hloop2) as [-> Hsame].
  pose proof (attach_loop_get _ _ _ _ _ Hloop2 (Hnd (NoDup_nil_2))) as Hget.
  split_and!; [done| | |done].
  - intros l c Hc. rewrite Hget, Hc. destruct (Hattrs l) as (attrs & Heq & Hall).
    destruct (dict_get l amap) as [a|] eqn:Ha; simpl in *.
    + exists (Class.set_attributes a c).
      split_and!; [done|apply same_display_set_attributes| |].
      * intros Hnil. assert (Some a = None); [|done].
        rewrite <- Ha. apply Hnone. done.
      * intros _. exists a. by subst a.
    + exists c. split_and!; [done|apply same_display_refl|done|].
      intros Hne. apply Hnone in Ha as [_ ?]. done.
  - intros l Hne. destruct (dict_get l classes) as [c|] eqn:Hc; [by eexists|].
    exfalso. destruct (dict_get l amap) as [a|] eqn:Ha.
    + destruct (attach_loop_Err amap classes s1 l) as (k' & Herr & _); [|done|congruence].
      apply dict_get_Some_elem in Ha. unfold dict_keys.
      apply list_elem_of_fmap. by exists (l, a).
    + apply Hnone in Ha as [_ ?]. done.
Qed.

Lemma elem_of_records_of l p props :
  p ∈ records_of l props ↔ NodeTypeProperty.nodeLabels p = [l] ∧ p ∈ props.
Proof.
  induction props as [|q props IH].
  - change (records_of l []) with (@nil NodeTypeProperty.t).
    rewrite elem_of_nil. tauto.
  - rewrite records_of_cons. case_decide as Hq.
    + rewrite !elem_of_cons, IH. intuition congruence.
    + rewrite elem_of_cons, IH. intuition congruence.
Qed.

Lemma records_of_nonempty l p props :
  p ∈ props → NodeTypeProperty.nodeLabels p = [l] → records_of l props ≠ [].
Proof.
  intros Hp Hl Hnil. assert (p ∈ records_of l props) as Hin.
  { by apply elem_of_records_of. }
  rewrite Hnil in Hin. by apply elem_of_nil in Hin.
Qed.

Lemma collect_attributes_Ok props classes s :
  (∀ p l, p ∈ props → NodeTypeProperty.nodeLabels p = [l] →
          is_Some (dict_get l classes) ∧ NodeTypeProperty.propertyTypes p ≠ []) →
  ∃ classes' s', collect_attributes props classes s = Ok (classes', s').
Proof.
  intros Hprops. unfold collect_attributes.
  destruct (collect_loop_Ok props [] s) as (amap & s1 & Hloop1).
  { intros p Hp Hlen.
    destruct (NodeTypeProperty.nodeLabels p) as [|l [|l' ls]] eqn:Hl; try done.
    by apply (Hprops p l). }
  rewrite (bind_Ok _ _ _ _ _ Hloop1).
  destruct (collect_loop_inv _ _ _ _ _ Hloop1) as (_ & Hnone & _).
  destruct (attach_loop_Ok amap classes s1) as (classes' & Hloop2); [|by eexists _, _].
  intros k Hk. destruct (records_of k props) as [|p ps] eqn:Hrec.
  - exfalso. apply dict_get_None in Hk; [done|]. apply Hnone. done.
  - assert (p ∈ records_of k props) as [Hl Hp]%elem_of_records_of.
    { rewrite Hrec. left. }
    by apply (Hprops p k).
Qed.

Lemma collect_attributes_Err props classes s p l :
  p ∈ props → NodeTypeProperty.nodeLabels p = [l] → dict_get l classes = None →
  ∃ e, collect_attributes props classes s = Err e ∧
       (e = IndexError ∨ ∃ k, e = KeyError (KStr k) ∧ dict_get k classes = None).
Proof.
  intros Hp Hl Hnone. unfold collect_attributes.
  destruct (foldM collect_step [] props s) as [[amap s1]|e] eqn:Hloop1.
  - rewrite (bind_Ok _ _ _ _ _ Hloop1).
    destruct (collect_loop_inv _ _ _ _ _ Hloop1) as (_ & Hamap & _).
    destruct (attach_loop_Err amap classes s1 l) as (k & Herr & Hk); [|done|].
    + destruct (decide (l ∈ dict_keys amap)) as [?|Habs]; [done|].
      apply dict_get_None, Hamap in Habs as [_ Hrec].
      by apply (records_of_nonempty l p props) in Hrec.
    + exists (KeyError (KStr k)). split; [done|]. right. by exists k.
  - rewrite (bind_Err _ _ _ _ Hloop1). exists e. split; [done|].
    left. by eapply collect_loop_Err.
Qed.

(** ** The converter as a whole *)

Section Run.
Variable uuid4 : nat → string.
Variable randint : nat → Z → Z → Z.

Lemma populate_schema_inv nodes rels s cs rs s' :
  populate_schema uuid4 randint nodes rels s = Ok ((cs, rs), s') →
  ∃ s1, foldM (add_class uuid4 randint) [] nodes s = Ok (cs, s1) ∧
        foldM (add_rel uuid4) [] rels s1 = Ok (rs, s').
Proof.
  unfold populate_schema.
  intros (cs' & s1 & Hcs & (rs' & s2 & Hrs & Hret)%bind_Ok_inv)%bind_Ok_inv.
  injection Hret as <- <- <-. eauto.
Qed.

Lemma init_unfold uri database nodes rels props :
  __init__ uuid4 randint uri database nodes rels props =
  bind (populate_schema uuid4 randint nodes rels)
    (λ cr, log_record INFO (GotCounts (length cr.1) (length cr.2)) ;;;
           classes <- collect_attributes props cr.1 ;;
           ret {| classes := dict_values classes;
                  relationships := dict_values cr.2 |})
    (connected uri database).
Proof. reflexivity. Qed.

Lemma init_inv uri database nodes rels props doc s :
  __init__ uuid4 randint uri database nodes rels props = Ok (doc, s) →
  ∃ cs rs s1 s2 cs',
    populate_schema uuid4 randint nodes rels (connected uri database)
      = Ok ((cs, rs), s1) ∧
    collect_attributes props cs s2 = Ok (cs', s) ∧
    classes doc = dict_values cs' ∧ relationships doc = dict_values rs.
Proof.
  rewrite init_unfold.
  intros ([cs rs] & s1 & Hpop & Hrest)%bind_Ok_inv.
  apply bind_Ok_inv in Hrest as ([] & s2 & _ & Hrest).
  apply bind_Ok_inv in Hrest as (cs' & s3 & Hcol & Hret).
  injection Hret as <- <-. by exists cs, rs, s1, s2, cs'.
Qed.

Lemma init_populate_Err uri database nodes rels props e :
  populate_schema uuid4 randint nodes rels (connected uri database) = Err e →
  __init__ uuid4 randint uri database nodes rels props = Err e.
Proof. intros Hpop. rewrite init_unfold. by apply bind_Err. Qed.

Lemma populate_schema_Err nodes rels s r :
  _class_uuid s = ∅ → r ∈ rels →
  Node.id (Rel.nodes r).1 ∉ (Node.id <$> nodes) ∨
  Node.id (Rel.nodes r).2 ∉ (Node.id <$> nodes) →
  ∃ k, (k ∉ Node.id <$> nodes) ∧
       populate_schema uuid4 randint nodes rels s = Err (KeyError (KInt k)).
Proof.
  intros Hempty Hr Habs. unfold populate_schema.
  destruct (class_loop_total uuid4 randint nodes [] s) as (cs & s1 & Hcs & _ & _ & Htab).
  rewrite (bind_Ok _ _ _ _ _ Hcs).
  destruct (rel_loop_Err uuid4 rels [] s1 r Hr) as (k & Hrun & Hk).
  { rewrite !Htab, Hempty, !lookup_empty. tauto. }
  exists k. split; [by apply Htab in Hk as [_ ?]|].
  by rewrite (bind_Err _ _ _ _ Hrun).
Qed.

Lemma populate_schema_Ok nodes rels s :
  (∀ r, r ∈ rels → endpoints_in (Node.id <$> nodes) r) →
  ∃ cs rs s', populate_schema uuid4 randint nodes rels s = Ok ((cs, rs), s').
Proof.
  intros Hends. unfold populate_schema.
  destruct (class_loop_total uuid4 randint nodes [] s) as (cs & s1 & Hcs & _ & _ & Htab).
  rewrite (bind_Ok _ _ _ _ _ Hcs).
  destruct (rel_loop_Ok uuid4 rels [] s1) as (rs & s2 & Hrs).
  { intros r [Hfrom Hto]%Hends.
    split; apply not_eq_None_Some; rewrite Htab; tauto. }
  rewrite (bind_Ok _ _ _ _ _ Hrs). by eexists _, _, _.
Qed.

Lemma run_structure uri database nodes rels props doc s :
  __init__ uuid4 randint uri database nodes rels props = Ok (doc, s) →
  ∃ cs rs s1 s2 s3 cs',
    foldM (add_class uuid4 randint) [] nodes (connected uri database) = Ok (cs, s1) ∧
    foldM (add_rel uuid4) [] rels s1 = Ok (rs, s2) ∧
    collect_attributes props cs s3 = Ok (cs', s) ∧
    classes doc = dict_values cs' ∧ relationships doc = dict_values rs.
Proof.
  intros (cs & rs & s2 & s3 & cs' & Hpop & Hcol & Hcl & Hrl)%init_inv.
  apply populate_schema_inv in Hpop as (s1 & Hcs & Hrs).
  by exists cs, rs, s1, s2, s3, cs'.
Qed.

(** The classes of the document carry an ['attributes'] list exactly when
    some record names their label alone, and then one attribute for each
    such record, in order. *)
Lemma run_attributes uri database nodes rels props doc s :
  __init__ uuid4 randint uri database nodes rels props = Ok (doc, s) →
  ∀ c, c ∈ classes doc →
       match Class.attributes c with
       | None => records_of (Class.label c) props = []
       | Some attrs =>
           attrs ≠ [] ∧ Forall2 attribute_of (records_of (Class.label c) props) attrs
       end.
Proof.
  intros (cs & rs & s1 & s2 & s3 & cs' & Hcs & _ & Hcol & -> & _)%run_structure c Hc.
  assert (Hfresh : ∀ k c0, dict_get k cs = Some c0 →
                           Class.label c0 = k ∧ Class.attributes c0 = None).
  { by apply (class_loop_attributes uuid4 randint _ _ _ _ _ Hcs). }
  pose proof (foldM_assign_keys_NoDup _ _ (add_class_assigns uuid4 randint)
                _ _ _ _ _ Hcs (NoDup_nil_2)) as Hnd.
  destruct (collect_attributes_inv _ _ _ _ _ Hcol) as (Hsame & Hget & _).
  unfold dict_values in Hc. apply list_elem_of_fmap in Hc as ([l c'] & -> & Hin).
  simpl. rewrite <- (same_entries_keys _ _ Hsame) in Hnd.
  apply (dict_elem_get _ _ _ Hnd) in Hin.
  destruct (dict_get l cs) as [c0|] eqn:Hc0.
  - destruct (Hfresh l c0 Hc0) as [Hlabel Hattr].
    destruct (Hget l c0 Hc0) as (c'' & Hc'' & (Hl & _) & Hsame0 & Hattrs).
    assert (c'' = c') as -> by congruence.
    rewrite Hl, Hlabel.
    destruct (records_of l props) as [|p ps] eqn:Hrec.
    + rewrite (Hsame0 eq_refl), Hattr. done.
    + destruct Hattrs as (attrs & -> & Hall); [done|]. split; [|done].
      intros ->. by apply Forall2_nil_inv_r in Hall.
  - apply dict_get_None in Hc0. rewrite <- (same_entries_keys _ _ Hsame) in Hc0.
    apply dict_get_None in Hc0. congruence.
Qed.

End Run.

Lemma foldM_split {A B} (f : A → B → M A) pre b post a s a' s' :
  foldM f a (pre ++ b :: post) s = Ok (a', s') →
  ∃ a1 s1 a2 s2, foldM f a pre s = Ok (a1, s1) ∧ f a1 b s1 = Ok (a2, s2) ∧
                 foldM f a2 post s2 = Ok (a', s').
Proof.
  rewrite foldM_app. intros (a1 & s1 & Hpre & Hrest)%bind_Ok_inv. simpl in Hrest.
  apply bind_Ok_inv in Hrest as (a2 & s2 & Hstep & Hpost).
  by exists a1, s1, a2, s2.
Qed.

Lemma NoDup_fmap_seq_inj {A} (f : nat → A) n i j :
  NoDup (f <$> seq 0 n) → (i < n)%nat → (j < n)%nat → f i = f j → i = j.
Proof.
  intros Hnd Hi Hj Heq.
  apply (proj1 (NoDup_alt _) Hnd i j (f i)).
  - rewrite list_lookup_fmap, (lookup_seq_lt 0 n i Hi). done.
  - rewrite list_lookup_fmap, (lookup_seq_lt 0 n j Hj). simpl. by rewrite Heq.
Qed.


(** * The properties of the specification *)

Section Specification.
Variable uuid4 : nat → string.
Variable randint : nat → Z → Z → Z.

(** C1: for a property record with a non-empty list of observed types,
    [_to_hume_type] returns the target type that the table String->STRING,
    Long->NUMBER, Double->DOUBLE, StringArray->STRING, Date->DATE,
    Point->STRING, Boolean->BOOLEAN gives for the first observed type, and
    STRING when that type is none of the seven (a warning naming the type is
    then logged); the result is one of STRING, NUMBER, DOUBLE, DATE and
    BOOLEAN.  In a generated document the attributes of a class are, one for
    one and in order, those of the property records naming its label alone:
    each has the name of its record and, as its type, the target type of the
    first observed type of that record, one of the five. *)
Theorem C1_hume_type :
  (∀ node t ts s,
     NodeTypeProperty.propertyTypes node = t :: ts →
     ∃ v s', _to_hume_type node s = Ok (v, s') ∧
             spec_type_mapping t v ∧
             v ∈ ["STRING"; "NUMBER"; "DOUBLE"; "DATE"; "BOOLEAN"] ∧
             (t ∉ ["String"; "Long"; "Double"; "StringArray"; "Date"; "Point";
                   "Boolean"] →
              (WARNING, UnsupportedType t (NodeTypeProperty.nodeType node))
                ∈ logger s')) ∧
  (∀ uri database nodes rels props doc s,
     __init__ uuid4 randint uri database nodes rels props = Ok (doc, s) →
     ∀ c attrs,
       c ∈ classes doc → Class.attributes c = Some attrs →
       Forall2 (λ p a,
                  Attribute.label a = NodeTypeProperty.propertyName p ∧
                  ∃ t ts, NodeTypeProperty.propertyTypes p = t :: ts ∧
                          spec_type_mapping t (Attribute.type a) ∧
                          Attribute.type a
                            ∈ ["STRING"; "NUMBER"; "DOUBLE"; "DATE"; "BOOLEAN"])
         (records_of (Class.label c) props) attrs).
Proof.
  split.
  - intros node t ts s Hty.
    destruct (to_hume_type_run node t ts s Hty) as (s' & Hrun & _ & Hwarn).
    eexists _, s'. split_and!; [done|apply types_mapping_spec| |].
    + apply types_mapping_range.
    + intros Hnew. by apply Hwarn, types_mapping_unknown.
  - intros uri database nodes rels props doc s Hrun c attrs Hc Hattrs.
    pose proof (run_attributes uuid4 randint _ _ _ _ _ _ _ Hrun c Hc) as Hspec.
    rewrite Hattrs in Hspec. destruct Hspec as [_ Hall].
    eapply Forall2_impl; [exact Hall|].
    intros p a (Hname & t & ts & Hty & ->). split; [done|].
    exists t, ts. split_and!; [done|apply types_mapping_spec|].
    apply types_mapping_range.
Qed.

(** C7 (as the code has it): [_make_class] builds a class without an
    ['attributes'] key; a class of the generated document has the key
    exactly when some property record names its label and no other, and the
    list is then not empty and holds one attribute for each such record, in
    order. *)
Theorem C7_attributes_key :
  (∀ node s, ∃ c s', _make_class uuid4 randint node s = Ok (c, s') ∧
                     Class.attributes c = None) ∧
  (∀ uri database nodes rels props doc s,
     __init__ uuid4 randint uri database nodes rels props = Ok (doc, s) →
     ∀ c, c ∈ classes doc →
          match Class.attributes c with
          | None => records_of (Class.label c) props = []
          | Some attrs =>
              attrs ≠ [] ∧
              Forall2 attribute_of (records_of (Class.label c) props) attrs
          end).
Proof.
  split.
  - intros node s. destruct (add_class_run uuid4 randint [] node s)
      as (c & s' & Hmk & _ & _ & _ & Hattr & _).
    by exists c, s'.
  - apply run_attributes.
Qed.

(** C9: one node record named "Person", no relationship record and the
    property record of the property "age" of type "Long" on the label
    "Person" give a document with the one class "Person", whose attributes
    are exactly the attribute "age" of type "NUMBER", and no relationship. *)
Theorem C9_scenario_person_age uri database i node_type :
  ∃ c s,
    __init__ uuid4 randint uri database
      [{| Node.id := i; Node.name := "Person" |}] []
      [{| NodeTypeProperty.nodeLabels := ["Person"];
          NodeTypeProperty.propertyName := "age";
          NodeTypeProperty.nodeType := node_type;
          NodeTypeProperty.propertyTypes := ["Long"] |}]
    = Ok ({| classes := [c]; relationships := [] |}, s) ∧
    Class.label c = "Person" ∧
    Class.attributes c
    = Some [{| Attribute.label := "age"; Attribute.type := "NUMBER" |}].
Proof. eexists _, _. split_and!; reflexivity. Qed.

(** C10: when [collect_attributes] returns, the dictionary has the same
    keys in the same order, and under each key a class with the label,
    uuid, canvas position, icon and color that it had before. *)
Theorem C10_collect_attributes_frame props cs s cs' s' :
  collect_attributes props cs s = Ok (cs', s') →
  Forall2 (λ kc kc', kc'.1 = kc.1 ∧
                     Class.label kc'.2 = Class.label kc.2 ∧
                     Class.uuid kc'.2 = Class.uuid kc.2 ∧
                     Class.canvasPosition kc'.2 = Class.canvasPosition kc.2 ∧
                     Class.icon kc'.2 = Class.icon kc.2 ∧
                     Class.color kc'.2 = Class.color kc.2) cs cs'.
Proof.
  intros (Hsame & _)%collect_attributes_inv. exact Hsame.
Qed.

(** C2 (as the code has it): when the node records have pairwise distinct
    labels, the ['start'] and the ['endId'] of every relationship of the
    generated document are each the uuid of a class of the document. *)
Theorem C2_endpoints_are_classes uri database nodes rels props doc s :
  NoDup (Node.name <$> nodes) →
  __init__ uuid4 randint uri database nodes rels props = Ok (doc, s) →
  ∀ r, r ∈ relationships doc →
       (∃ c, c ∈ classes doc ∧ Class.uuid c = Relationship.start r) ∧
       (∃ c, c ∈ classes doc ∧ Class.uuid c = Relationship.endId r).
Proof.
  intros Hnd (cs & rs & s1 & s2 & s3 & cs' & Hcs & Hrs & Hcol & -> & ->)%run_structure r Hr.
  assert (Htab : ∀ i u, _class_uuid s1 !! i = Some u →
                        ∃ c, c ∈ dict_values cs' ∧ Class.uuid c = u).
  { intros i u Hi.
    destruct (class_loop_table uuid4 randint _ _ _ _ _ Hcs Hnd) with (i := i) (u := u)
      as (c & Hc & Hu); [done| |done|].
    { intros i' u'. simpl. by rewrite lookup_empty. }
    destruct (collect_attributes_inv _ _ _ _ _ Hcol) as (Hsame & _).
    assert (u ∈ Class.uuid <$> dict_values cs') as (c' & -> & Hc')%list_elem_of_fmap.
    { rewrite (same_entries_uuids _ _ Hsame), <- Hu. by apply list_elem_of_fmap_2. }
    by exists c'. }
  destruct (rel_loop_inv uuid4 _ _ _ _ _ Hrs) as (_ & _ & Hvals).
  destruct (Hvals r Hr) as [Hnil|(i & j & Hi & Hj)].
  - by apply elem_of_nil in Hnil.
  - split; eauto.
Qed.

(** C3: a relationship record with an end node whose id is the id of no
    node record makes [populate_schema] raise [KeyError] on such an id,
    from any state with an empty table; the exception leaves [__init__], so
    that there is no relationship and no document. *)
Theorem C3_unknown_endpoint_aborts uri database nodes rels props r :
  r ∈ rels →
  Node.id (Rel.nodes r).1 ∉ (Node.id <$> nodes) ∨
  Node.id (Rel.nodes r).2 ∉ (Node.id <$> nodes) →
  (∀ s, _class_uuid s = ∅ →
        ∃ k, (k ∉ Node.id <$> nodes) ∧
             populate_schema uuid4 randint nodes rels s = Err (KeyError (KInt k))) ∧
  (∃ k, (k ∉ Node.id <$> nodes) ∧
        __init__ uuid4 randint uri database nodes rels props
        = Err (KeyError (KInt k))).
Proof.
  intros Hr Habs. split.
  - intros s Hs. by apply (populate_schema_Err uuid4 randint nodes rels s r).
  - destruct (populate_schema_Err uuid4 randint nodes rels (connected uri database) r)
      as (k & Hk & Herr); [done..|].
    exists k. split; [done|]. by apply init_populate_Err.
Qed.

(** C4: a property record that names one label, for which the dictionary
    has no class, makes [collect_attributes] raise: [KeyError] on a label
    without a class, or [IndexError] when a record naming one label has no
    observed type; the exception leaves [__init__] when the label is the
    name of no node record.  When [collect_attributes] returns, the
    dictionary has the keys that it had. *)
Theorem C4_unknown_label_aborts props p l :
  p ∈ props → NodeTypeProperty.nodeLabels p = [l] →
  (∀ cs s, dict_get l cs = None →
     ∃ e, collect_attributes props cs s = Err e ∧
          (e = IndexError ∨ ∃ k, e = KeyError (KStr k) ∧ dict_get k cs = None) ∧
          ((∀ q, q ∈ props → length (NodeTypeProperty.nodeLabels q) = 1 →
                 NodeTypeProperty.propertyTypes q ≠ []) →
           ∃ k, e = KeyError (KStr k) ∧ dict_get k cs = None)) ∧
  (∀ uri database nodes rels,
     l ∉ Node.name <$> nodes →
     ∃ e, __init__ uuid4 randint uri database nodes rels props = Err e) ∧
  (∀ cs s cs' s',
     collect_attributes props cs s = Ok (cs', s') → dict_keys cs' = dict_keys cs).
Proof.
  intros Hp Hl. split_and!.
  - intros cs s Hnone.
    destruct (collect_attributes_Err props cs s p l Hp Hl Hnone) as (e & Herr & He).
    exists e. split_and!; [done..|]. intros Hty.
    destruct He as [->|?]; [|done]. exfalso.
    unfold collect_attributes in Herr.
    destruct (collect_loop_Ok props [] s Hty) as (amap & s1 & Hloop1).
    rewrite (bind_Ok _ _ _ _ _ Hloop1) in Herr.
    destruct (collect_loop_inv _ _ _ _ _ Hloop1) as (_ & Hamap & _).
    destruct (attach_loop_Err amap cs s1 l) as (k & Herr' & _); [|done|congruence].
    destruct (decide (l ∈ dict_keys amap)) as [?|Habs]; [done|].
    apply dict_get_None, Hamap in Habs as [_ Hrec].
    by apply (records_of_nonempty l p props) in Hrec.
  - intros uri database nodes rels Hnew. rewrite init_unfold.
    destruct (populate_schema uuid4 randint nodes rels (connected uri database))
      as [[[cs rs] s1]|e] eqn:Hpop; [|exists e; by apply bind_Err].
    rewrite (bind_Ok _ _ _ _ _ Hpop).
    apply populate_schema_inv in Hpop as (s0 & Hcs & _).
    assert (dict_get l cs = None) as Hnone.
    { apply dict_get_None.
      rewrite (foldM_assign_keys _ _ (add_class_assigns uuid4 randint) _ _ _ _ _ Hcs).
      rewrite elem_of_foldl_keys_add. intros [Hnil|?]; [|done].
      by apply elem_of_nil in Hnil. }
    erewrite bind_Ok by reflexivity. simpl.
    match goal with |- ∃ e, bind _ _ ?s2 = Err e =>
      destruct (collect_attributes_Err props cs s2 p l Hp Hl Hnone) as (e & Herr & _)
    end.
    exists e. by rewrite (bind_Err _ _ _ _ Herr).
  - intros cs s cs' s' (Hsame & _)%collect_attributes_inv.
    by apply same_entries_keys.
Qed.

(** C5: when every property record that names one label names a label of
    the dictionary and has an observed type, and the classes have no
    attributes yet, [collect_attributes] returns; the attributes of the
    class under a label are then, one for one and in order, the attributes
    of the records naming that label alone, so that a record naming one
    label adds one attribute to that class and a record naming no label or
    several adds none, to any class; such a record is logged as a warning. *)
Theorem C5_one_attribute_per_record props cs s :
  (∀ p l, p ∈ props → NodeTypeProperty.nodeLabels p = [l] →
          is_Some (dict_get l cs) ∧ NodeTypeProperty.propertyTypes p ≠ []) →
  (∀ c, c ∈ dict_values cs → Class.attributes c = None) →
  ∃ cs' s',
    collect_attributes props cs s = Ok (cs', s') ∧
    dict_keys cs' = dict_keys cs ∧
    (∀ l c', dict_get l cs' = Some c' →
       Forall2 attribute_of (records_of l props) (default [] (Class.attributes c')) ∧
       length (default [] (Class.attributes c')) = length (records_of l props)) ∧
    (∀ p, p ∈ props → length (NodeTypeProperty.nodeLabels p) ≠ 1 →
          (∀ l, p ∉ records_of l props) ∧
          (WARNING, MultipleLabels (NodeTypeProperty.nodeType p)
                      (NodeTypeProperty.nodeLabels p)) ∈ logger s').
Proof.
  intros Hprops Hfresh.
  destruct (collect_attributes_Ok props cs s Hprops) as (cs' & s' & Hrun).
  exists cs', s'.
  destruct (collect_attributes_inv _ _ _ _ _ Hrun) as (Hsame & Hget & _ & extra & Hlog & Hwarn).
  pose proof (same_entries_keys _ _ Hsame) as Hkeys.
  split_and!; [done|done| |].
  - intros l c' Hc'.
    assert (Forall2 attribute_of (records_of l props)
              (default [] (Class.attributes c'))) as Hall.
    { destruct (dict_get l cs) as [c|] eqn:Hc.
      - destruct (Hget l c Hc) as (c'' & Hc'' & _ & Hnil & Hattrs).
        assert (c'' = c') as -> by congruence.
        destruct (records_of l props) as [|q qs] eqn:Hrec.
        + rewrite (Hnil eq_refl), (Hfresh c (dict_get_Some_value _ _ _ Hc)).
          constructor.
        + destruct Hattrs as (attrs & -> & Hall); done.
      - apply dict_get_None in Hc. rewrite <- Hkeys in Hc.
        apply dict_get_None in Hc. congruence. }
    split; [done|]. symmetry. by eapply Forall2_length.
  - intros p Hp Hlen. split.
    + intros l [Hl _]%elem_of_records_of. rewrite Hl in Hlen. done.
    + rewrite Hlog. apply elem_of_app. right. by apply Hwarn.
Qed.

(** C6 (as the code has it): when both end nodes of every relationship
    record are among the node records, [populate_schema] returns as many
    classes as the node records have distinct labels and as many
    relationships as the relationship records have distinct types; under a
    label is the class made for the last node record with that label, and
    under a type the relationship made for the last record of that type. *)
Theorem C6_one_entry_per_key nodes rels s :
  (∀ r, r ∈ rels → endpoints_in (Node.id <$> nodes) r) →
  ∃ cs rs s',
    populate_schema uuid4 randint nodes rels s = Ok ((cs, rs), s') ∧
    length (dict_values cs) = length (remove_dups (Node.name <$> nodes)) ∧
    length (dict_values rs) = length (remove_dups (Rel.type <$> rels)) ∧
    (∀ pre n post,
       nodes = pre ++ n :: post → Node.name n ∉ (Node.name <$> post) →
       ∃ d1 s1 c s2,
         foldM (add_class uuid4 randint) [] pre s = Ok (d1, s1) ∧
         _make_class uuid4 randint n s1 = Ok (c, s2) ∧
         dict_get (Node.name n) cs = Some c) ∧
    (∀ pre r post,
       rels = pre ++ r :: post → Rel.type r ∉ (Rel.type <$> post) →
       ∃ cs0 s0 d1 s1 x s2,
         foldM (add_class uuid4 randint) [] nodes s = Ok (cs0, s0) ∧
         foldM (add_rel uuid4) [] pre s0 = Ok (d1, s1) ∧
         _make_rel uuid4 r s1 = Ok (x, s2) ∧
         dict_get (Rel.type r) rs = Some x).
Proof.
  intros Hends.
  destruct (populate_schema_Ok uuid4 randint nodes rels s Hends) as (cs & rs & s' & Hpop).
  exists cs, rs, s'. split; [done|].
  apply populate_schema_inv in Hpop as (s0 & Hcs & Hrs).
  unfold dict_values. rewrite !length_fmap. split_and!.
  - by apply (foldM_assign_length _ _ (add_class_assigns uuid4 randint) _ _ _ _ Hcs).
  - by apply (foldM_assign_length _ _ (add_rel_assigns uuid4) _ _ _ _ Hrs).
  - intros pre n post -> Hlast.
    apply foldM_split in Hcs as (d1 & s1 & d2 & s2 & Hpre & Hstep & Hpost).
    destruct (add_class_run uuid4 randint d1 n s1) as (c & s2' & Hmk & Hadd & _).
    rewrite Hadd in Hstep. injection Hstep as <- <-.
    exists d1, s1, c, s2'. split_and!; [done..|].
    rewrite (foldM_assign_other _ _ (add_class_assigns uuid4 randint) _ _ _ _ _ _ Hpost Hlast).
    apply dict_get_set_eq.
  - intros pre r post -> Hlast.
    apply foldM_split in Hrs as (d1 & s1 & d2 & s2 & Hpre & Hstep & Hpost).
    apply add_rel_inv in Hstep as (x & Hmk & ->).
    exists cs, s0, d1, s1, x, s2. split_and!; [done..|].
    rewrite (foldM_assign_other _ _ (add_rel_assigns uuid4) _ _ _ _ _ _ Hpost Hlast).
    apply dict_get_set_eq.
Qed.

(** C8: when the calls of [uuid4] made for the node records return pairwise
    distinct strings, the classes of the generated document have pairwise
    distinct uuids; the uuid of a class is the string that [uuid4] returned
    when [_make_class] built the class, and [collect_attributes] leaves the
    uuids as they are. *)
Theorem C8_class_uuids_unique uri database nodes rels props doc s :
  NoDup (uuid4 <$> seq 0 (length nodes)) →
  __init__ uuid4 randint uri database nodes rels props = Ok (doc, s) →
  NoDup (Class.uuid <$> classes doc) ∧
  (∀ node s0, ∃ c s1, _make_class uuid4 randint node s0 = Ok (c, s1) ∧
                      Class.uuid c = uuid4 (uuid_calls s0)) ∧
  (∀ props0 cs s0 cs' s1,
     collect_attributes props0 cs s0 = Ok (cs', s1) →
     Class.uuid <$> dict_values cs' = Class.uuid <$> dict_values cs).
Proof.
  intros Hnd (cs & rs & s1 & s2 & s3 & cs' & Hcs & _ & Hcol & -> & _)%run_structure.
  split_and!.
  - destruct (collect_attributes_inv _ _ _ _ _ Hcol) as (Hsame & _).
    rewrite (same_entries_uuids _ _ Hsame).
    apply (class_loop_uuids uuid4 randint _ _ _ _ _ Hcs).
    + simpl. intros i j Hi Hj. by apply NoDup_fmap_seq_inj with (n := length nodes).
    + apply NoDup_nil_2.
    + intros c Hc. by apply elem_of_nil in Hc.
  - intros node s0. destruct (add_class_run uuid4 randint [] node s0)
      as (c & s0' & Hmk & _ & _ & Hu & _).
    by exists c, s0'.
  - intros props0 cs0 s0 cs0' s0' (Hsame & _)%collect_attributes_inv.
    by apply same_entries_uuids.
Qed.

End Specification.

(** * The properties on sample schemas *)

(** C2 as stated fails: two node records with the label "Person" leave one
    class in the document, and the relationship between the two nodes
    starts at the uuid of the class that was dropped. *)
Lemma C2_counterexample :
  ∃ doc s,
    __init__ uuid4_demo randint_demo URI DATABASE [person; person'] [knows] []
    = Ok (doc, s) ∧
    ∃ r, r ∈ relationships doc ∧
         ¬ ∃ c, c ∈ classes doc ∧ Class.uuid c = Relationship.start r.
Proof.
  destruct (__init__ uuid4_demo randint_demo URI DATABASE [person; person'] [knows] [])
    as [[doc s]|e] eqn:Hrun; vm_compute in Hrun; [|discriminate Hrun].
  injection Hrun as <- <-. eexists _, _. split; [reflexivity|]. simpl.
  eexists. split; [left|].
  intros (c & ->%list_elem_of_singleton & Hu). discriminate Hu.
Qed.

Lemma C2_witness :
  ∃ doc s,
    __init__ uuid4_demo randint_demo URI DATABASE [person; company] [works_at]
      [person_age] = Ok (doc, s) ∧
    Forall (λ r, (∃ c, c ∈ classes doc ∧ Class.uuid c = Relationship.start r) ∧
                 (∃ c, c ∈ classes doc ∧ Class.uuid c = Relationship.endId r))
      (relationships doc).
Proof.
  destruct (__init__ uuid4_demo randint_demo URI DATABASE [person; company]
              [works_at] [person_age]) as [[doc s]|e] eqn:Hrun;
    [|vm_compute in Hrun; discriminate Hrun].
  exists doc, s. split; [reflexivity|]. apply Forall_forall.
  apply (C2_endpoints_are_classes uuid4_demo randint_demo URI DATABASE
           [person; company] [works_at] [person_age] doc s); [|exact Hrun].
  apply (bool_decide_unpack _). vm_compute. exact I.
Defined.

Lemma C1_witness :
  (∃ v s', _to_hume_type company_shape init_state = Ok (v, s') ∧
           spec_type_mapping "Alien" v ∧
           v ∈ ["STRING"; "NUMBER"; "DOUBLE"; "DATE"; "BOOLEAN"] ∧
           ("Alien" ∉ ["String"; "Long"; "Double"; "StringArray"; "Date"; "Point";
                       "Boolean"] →
            (WARNING, UnsupportedType "Alien"
                        (NodeTypeProperty.nodeType company_shape)) ∈ logger s')) ∧
  (∃ doc s,
     __init__ uuid4_demo randint_demo URI DATABASE [person; company] [works_at]
       [person_age; company_shape; person_company_since; person_born]
     = Ok (doc, s) ∧
     Forall (λ c, ∀ attrs,
               Class.attributes c = Some attrs →
               Forall2 (λ p a,
                          Attribute.label a = NodeTypeProperty.propertyName p ∧
                          ∃ t ts, NodeTypeProperty.propertyTypes p = t :: ts ∧
                                  spec_type_mapping t (Attribute.type a) ∧
                                  Attribute.type a
                                    ∈ ["STRING"; "NUMBER"; "DOUBLE"; "DATE";
                                       "BOOLEAN"])
                 (records_of (Class.label c)
                    [person_age; company_shape; person_company_since; person_born])
                 attrs)
       (classes doc)).
Proof.
  split.
  - exact (proj1 (C1_hume_type uuid4_demo randint_demo) company_shape "Alien"
             ["String"] init_state eq_refl).
  - destruct (__init__ uuid4_demo randint_demo URI DATABASE [person; company]
                [works_at]
                [person_age; company_shape; person_company_since; person_born])
      as [[doc s]|e] eqn:Hrun; [|vm_compute in Hrun; discriminate Hrun].
    exists doc, s. split; [reflexivity|]. apply Forall_forall.
    intros c Hc attrs. revert c attrs Hc.
    exact (proj2 (C1_hume_type uuid4_demo randint_demo) URI DATABASE
             [person; company] [works_at]
             [person_age; company_shape; person_company_since; person_born]
             doc s Hrun).
Defined.

Lemma C3_witness :
  (∀ s, _class_uuid s = ∅ →
        ∃ k, (k ∉ Node.id <$> [person]) ∧
             populate_schema uuid4_demo randint_demo [person] [works_at] s
             = Err (KeyError (KInt k))) ∧
  (∃ k, (k ∉ Node.id <$> [person]) ∧
        __init__ uuid4_demo randint_demo URI DATABASE [person] [works_at] []
        = Err (KeyError (KInt k))).
Proof.
  apply (C3_unknown_endpoint_aborts uuid4_demo randint_demo URI DATABASE
           [person] [works_at] [] works_at).
  - left.
  - right. apply (bool_decide_unpack _). vm_compute. exact I.
Defined.

Lemma C4_witness :
  (∀ cs s, dict_get "City" cs = None →
     ∃ e, collect_attributes [person_age; city_name] cs s = Err e ∧
          (e = IndexError ∨ ∃ k, e = KeyError (KStr k) ∧ dict_get k cs = None) ∧
          ((∀ q, q ∈ [person_age; city_name] →
                 length (NodeTypeProperty.nodeLabels q) = 1 →
                 NodeTypeProperty.propertyTypes q ≠ []) →
           ∃ k, e = KeyError (KStr k) ∧ dict_get k cs = None)) ∧
  (∀ uri database nodes rels,
     "City" ∉ Node.name <$> nodes →
     ∃ e, __init__ uuid4_demo randint_demo uri database nodes rels
            [person_age; city_name] = Err e) ∧
  (∀ cs s cs' s',
     collect_attributes [person_age; city_name] cs s = Ok (cs', s') →
     dict_keys cs' = dict_keys cs).
Proof.
  apply (C4_unknown_label_aborts uuid4_demo randint_demo
           [person_age; city_name] city_name "City").
  - right. left.
  - reflexivity.
Defined.

Lemma C5_witness :
  ∃ cs' s',
    collect_attributes [person_age; person_company_since] sample_classes init_state
    = Ok (cs', s') ∧
    dict_keys cs' = dict_keys sample_classes ∧
    (∀ l c', dict_get l cs' = Some c' →
       Forall2 attribute_of (records_of l [person_age; person_company_since])
         (default [] (Class.attributes c')) ∧
       length (default [] (Class.attributes c'))
       = length (records_of l [person_age; person_company_since])) ∧
    (∀ p, p ∈ [person_age; person_company_since] →
          length (NodeTypeProperty.nodeLabels p) ≠ 1 →
          (∀ l, p ∉ records_of l [person_age; person_company_since]) ∧
          (WARNING, MultipleLabels (NodeTypeProperty.nodeType p)
                      (NodeTypeProperty.nodeLabels p)) ∈ logger s').
Proof.
  apply (C5_one_attribute_per_record [person_age; person_company_since]
           sample_classes init_state).
  - intros p l [->|[->|Hp]%elem_of_cons]%elem_of_cons Hl.
    + injection Hl as <-. split; [by eexists|done].
    + discriminate Hl.
    + by apply elem_of_nil in Hp.
  - intros c [->|[->|Hc]%elem_of_cons]%elem_of_cons; [reflexivity..|].
    by apply elem_of_nil in Hc.
Defined.

(** C6 as stated fails: a relationship record to a node that is not among
    the node records makes [populate_schema] raise, so that it returns no
    relationship, while the records have one type. *)
Lemma C6_counterexample :
  populate_schema uuid4_demo randint_demo [person] [works_at] init_state
  = Err (KeyError (KInt 2)) ∧
  length (remove_dups (Rel.type <$> [works_at])) = 1 ∧
  ¬ ∃ cs rs s',
      populate_schema uuid4_demo randint_demo [person] [works_at] init_state
      = Ok ((cs, rs), s') ∧
      length (dict_values rs) = length (remove_dups (Rel.type <$> [works_at])).
Proof.
  assert (Herr : populate_schema uuid4_demo randint_demo [person] [works_at] init_state
                 = Err (KeyError (KInt 2))) by (vm_compute; reflexivity).
  split_and!; [done|reflexivity|].
  intros (cs & rs & s' & Hok & _). rewrite Herr in Hok. discriminate Hok.
Qed.

Lemma C6_witness :
  ∃ cs rs s',
    populate_schema uuid4_demo randint_demo [person; person'; company]
      [works_at; knows; works_at] init_state = Ok ((cs, rs), s') ∧
    length (dict_values cs)
    = length (remove_dups (Node.name <$> [person; person'; company])) ∧
    length (dict_values rs)
    = length (remove_dups (Rel.type <$> [works_at; knows; works_at])) ∧
    (∀ pre n post,
       [person; person'; company] = pre ++ n :: post →
       Node.name n ∉ (Node.name <$> post) →
       ∃ d1 s1 c s2,
         foldM (add_class uuid4_demo randint_demo) [] pre init_state = Ok (d1, s1) ∧
         _make_class uuid4_demo randint_demo n s1 = Ok (c, s2) ∧
         dict_get (Node.name n) cs = Some c) ∧
    (∀ pre r post,
       [works_at; knows; works_at] = pre ++ r :: post →
       Rel.type r ∉ (Rel.type <$> post) →
       ∃ cs0 s0 d1 s1 x s2,
         foldM (add_class uuid4_demo randint_demo) []
           [person; person'; company] init_state = Ok (cs0, s0) ∧
         foldM (add_rel uuid4_demo) [] pre s0 = Ok (d1, s1) ∧
         _make_rel uuid4_demo r s1 = Ok (x, s2) ∧
         dict_get (Rel.type r) rs = Some x).
Proof.
  apply (C6_one_entry_per_key uuid4_demo randint_demo [person; person'; company]
           [works_at; knows; works_at] init_state).
  intros r Hr. split; apply (bool_decide_unpack _);
    repeat (apply elem_of_cons in Hr as [->|Hr]; [vm_compute; exact I|]);
    by apply elem_of_nil in Hr.
Defined.

(** C7 as stated fails: [_make_class] builds a class without attribute
    list, and the class of a label that no property record names has none
    in the document either. *)
Lemma C7_counterexample :
  (∃ c s, _make_class uuid4_demo randint_demo person init_state = Ok (c, s) ∧
          Class.attributes c ≠ Some []) ∧
  (∃ doc s,
     __init__ uuid4_demo randint_demo URI DATABASE [person] [] [] = Ok (doc, s) ∧
     ¬ Forall (λ c, is_Some (Class.attributes c)) (classes doc)).
Proof.
  split.
  - destruct (_make_class uuid4_demo randint_demo person init_state)
      as [[c s]|e] eqn:Hrun; vm_compute in Hrun; [|discriminate Hrun].
    injection Hrun as <- <-. eexists _, _. split; [reflexivity|]. discriminate.
  - destruct (__init__ uuid4_demo randint_demo URI DATABASE [person] [] [])
      as [[doc s]|e] eqn:Hrun; vm_compute in Hrun; [|discriminate Hrun].
    injection Hrun as <- <-. eexists _, _. split; [reflexivity|]. simpl.
    intros [[attrs Hattrs] _]%Forall_cons. discriminate Hattrs.
Qed.

Lemma C7_witness :
  ∃ doc s,
    __init__ uuid4_demo randint_demo URI DATABASE [person; company] [works_at]
      [person_age; person_company_since] = Ok (doc, s) ∧
    Forall (λ c, match Class.attributes c with
                 | None =>
                     records_of (Class.label c) [person_age; person_company_since]
                     = []
                 | Some attrs =>
                     attrs ≠ [] ∧
                     Forall2 attribute_of
                       (records_of (Class.label c)
                          [person_age; person_company_since]) attrs
                 end) (classes doc).
Proof.
  destruct (__init__ uuid4_demo randint_demo URI DATABASE [person; company]
              [works_at] [person_age; person_company_since])
    as [[doc s]|e] eqn:Hrun; [|vm_compute in Hrun; discriminate Hrun].
  exists doc, s. split; [reflexivity|]. apply Forall_forall.
  exact (proj2 (C7_attributes_key uuid4_demo randint_demo) URI DATABASE
           [person; company] [works_at] [person_age; person_company_since]
           doc s Hrun).
Defined.

Lemma C8_witness :
  ∃ doc s,
    __init__ uuid4_demo randint_demo URI DATABASE [person; person'; company]
      [works_at] [person_age] = Ok (doc, s) ∧
    NoDup (Class.uuid <$> classes doc) ∧
    (∀ node s0, ∃ c s1, _make_class uuid4_demo randint_demo node s0 = Ok (c, s1) ∧
                        Class.uuid c = uuid4_demo (uuid_calls s0)) ∧
    (∀ props0 cs s0 cs' s1,
       collect_attributes props0 cs s0 = Ok (cs', s1) →
       Class.uuid <$> dict_values cs' = Class.uuid <$> dict_values cs).
Proof.
  destruct (__init__ uuid4_demo randint_demo URI DATABASE
              [person; person'; company] [works_at] [person_age])
    as [[doc s]|e] eqn:Hrun; [|vm_compute in Hrun; discriminate Hrun].
  exists doc, s. split; [reflexivity|].
  apply (C8_class_uuids_unique uuid4_demo randint_demo URI DATABASE
           [person; person'; company] [works_at] [person_age] doc s);
    [|exact Hrun].
  apply (bool_decide_unpack _). vm_compute. exact I.
Defined.

Lemma C10_witness :
  ∃ cs' s',
    collect_attributes [person_age; person_company_since] sample_classes init_state
    = Ok (cs', s') ∧
    Forall2 (λ kc kc', kc'.1 = kc.1 ∧
                       Class.label kc'.2 = Class.label kc.2 ∧
                       Class.uuid kc'.2 = Class.uuid kc.2 ∧
                       Class.canvasPosition kc'.2 = Class.canvasPosition kc.2 ∧
                       Class.icon kc'.2 = Class.icon kc.2 ∧
                       Class.color kc'.2 = Class.color kc.2) sample_classes cs'.
Proof.
  destruct (collect_attributes [person_age; person_company_since] sample_classes
              init_state) as [[cs' s']|e] eqn:Hrun;
    [|vm_compute in Hrun; discriminate Hrun].
  exists cs', s'. split; [reflexivity|].
  exact (C10_collect_attributes_frame [person_age; person_company_since]
           sample_classes init_state cs' s' Hrun).
Defined.

(** * Further properties of the converter *)

(** ** Dictionaries built by a loop: entries and order of the keys *)

Lemma dict_set_Forall {V} (P : string * V → Prop) k v (d : dict V) :
  P (k, v) → Forall P d → Forall P (dict_set k v d).
Proof.
  intros Hkv. induction d as [|[k' v'] d IH]; simpl.
  - intros _. by constructor.
  - intros [Hhd Htl]%Forall_cons. case_decide; constructor; auto.
Qed.

Lemma dict_values_Forall {V} (P : string * V → Prop) (d : dict V) v :
  Forall P d → v ∈ dict_values d → ∃ k, P (k, v).
Proof.
  intros Hall ([k v'] & -> & Hin)%list_elem_of_fmap.
  exists k. by apply (proj1 (Forall_forall _ _) Hall).
Qed.

Lemma dict_values_keys {V} (g : V → string) (d : dict V) :
  Forall (λ kv, g kv.2 = kv.1) d → g <$> dict_values d = dict_keys d.
Proof.
  unfold dict_values, dict_keys.
  induction 1 as [|[k v] d Hkv _ IH]; [done|].
  rewrite !fmap_cons. simpl in *. by f_equal.
Qed.

(** The keys come in the order in which they were first assigned. *)
Lemma foldl_keys_add_first l :
  foldl keys_add [] l = reverse (remove_dups (reverse l)).
Proof.
  induction l as [|x l IH] using rev_ind; [done|].
  rewrite foldl_app, reverse_snoc. simpl. rewrite IH. unfold keys_add.
  destruct (decide_rel elem_of x (reverse l)) as [Hx|Hx]; case_decide as Hx'.
  - done.
  - exfalso. apply Hx'. rewrite elem_of_reverse, elem_of_remove_dups. done.
  - exfalso. apply Hx. rewrite elem_of_reverse, elem_of_remove_dups in Hx'. done.
  - by rewrite reverse_cons.
Qed.

Lemma remove_dups_NoDup (l : list string) : NoDup l → remove_dups l = l.
Proof.
  induction 1 as [|x l Hx _ IH]; [done|]. simpl.
  destruct (decide_rel elem_of x l); [done|]. by rewrite IH.
Qed.

Lemma foldl_keys_add_NoDup_id l : NoDup l → foldl keys_add [] l = l.
Proof.
  intros Hnd. rewrite foldl_keys_add_first, remove_dups_NoDup.
  - apply reverse_involutive.
  - by rewrite reverse_Permutation.
Qed.

Section EntriesLoop.
Context {B V : Type} (f : dict V → B → M (dict V)) (key : B → string).
Context (P : string * V → Prop).

Lemma foldM_entries_Forall l :
  (∀ d b s d' s', b ∈ l → f d b s = Ok (d', s') →
                  ∃ v, d' = dict_set (key b) v d ∧ P (key b, v)) →
  ∀ d s d' s', foldM f d l s = Ok (d', s') → Forall P d → Forall P d'.
Proof.
  induction l as [|b l IH]; simpl; intros Hstep d s d' s' Hrun Hd.
  - by injection Hrun as <- <-.
  - apply bind_Ok_inv in Hrun as (d1 & s1 & Hb & Hrest).
    apply Hstep in Hb as (v & -> & Hv); [|left].
    apply (IH (λ d b s d' s' Hb, Hstep d b s d' s' (list_elem_of_further _ _ _ Hb))
             _ _ _ _ Hrest).
    by apply dict_set_Forall.
Qed.

End EntriesLoop.

Lemma same_entries_Forall (P Q : string * Class.t → Prop) (d d' : dict Class.t) :
  (∀ kc kc', same_entry kc kc' → P kc → Q kc') →
  Forall2 same_entry d d' → Forall P d → Forall Q d'.
Proof.
  intros HPQ Hsame. induction Hsame as [|kc kc' d d' Hkc _ IH].
  - by constructor.
  - intros [Hhd Htl]%Forall_cons. constructor; eauto.
Qed.

(** ** More on [populate_schema] *)

Section MorePopulate.
Variable uuid4 : nat → string.
Variable randint : nat → Z → Z → Z.

Lemma make_class_eq n s :
  _make_class uuid4 randint n s =
  Ok ({| Class.label := Node.name n;
         Class.canvasPosition :=
           {| CanvasPosition.x := randint (randint_calls s) 100 1200;
              CanvasPosition.y := randint (S (randint_calls s)) 50 800 |};
         Class.icon := "mdi-circle-outline";
         Class.color := "#aaa";
         Class.uuid := uuid4 (uuid_calls s);
         Class.attributes := None |},
      {| _class_uuid := <[Node.id n := uuid4 (uuid_calls s)]> (_class_uuid s);
         uuid_calls := S (uuid_calls s);
         randint_calls := S (S (randint_calls s));
         logger := logger s |}).
Proof. reflexivity. Qed.

Lemma add_class_eq d n s d' s' :
  add_class uuid4 randint d n s = Ok (d', s') →
  ∃ c s0, _make_class uuid4 randint n s = Ok (c, s0) ∧ s' = s0 ∧
          d' = dict_set (Node.name n) c d.
Proof.
  unfold add_class. intros (c & s0 & Hmk & Hret)%bind_Ok_inv.
  injection Hret as <- <-. by exists c, s0.
Qed.

(** Entries not assigned by the rest of the loop keep the table's value. *)
Lemma class_loop_table_other nodes i : ∀ d s d' s',
  foldM (add_class uuid4 randint) d nodes s = Ok (d', s') →
  i ∉ Node.id <$> nodes → _class_uuid s' !! i = _class_uuid s !! i.
Proof.
  induction nodes as [|n nodes IH]; simpl; intros d s d' s' Hrun Hi.
  - by injection Hrun as <- <-.
  - apply bind_Ok_inv in Hrun as (d1 & s1 & Hstep & Hrest).
    apply add_class_eq in Hstep as (c & s0 & Hmk & -> & ->).
    rewrite make_class_eq in Hmk. injection Hmk as <- <-.
    apply not_elem_of_cons in Hi as [Hne Hi].
    rewrite (IH _ _ _ _ Hrest Hi). simpl. by apply lookup_insert_ne.
Qed.

Lemma class_loop_counters nodes : ∀ d s d' s',
  foldM (add_class uuid4 randint) d nodes s = Ok (d', s') →
  uuid_calls s' = (uuid_calls s + length nodes)%nat.
Proof.
  induction nodes as [|n nodes IH]; simpl; intros d s d' s' Hrun.
  - injection Hrun as <- <-. lia.
  - apply bind_Ok_inv in Hrun as (d1 & s1 & Hstep & Hrest).
    apply add_class_eq in Hstep as (c & s0 & Hmk & -> & ->).
    rewrite make_class_eq in Hmk. injection Hmk as <- <-.
    rewrite (IH _ _ _ _ Hrest). simpl. lia.
Qed.

(** With pairwise distinct labels, every entry of the table is the uuid
    of a class of the dictionary that bears the name of a node record
    with that id. *)
Lemma class_loop_links (all : list Node.t) nodes : ∀ d s d' s',
  foldM (add_class uuid4 randint) d nodes s = Ok (d', s') →
  NoDup (Node.name <$> nodes) →
  (∀ n, n ∈ nodes → n ∈ all ∧ dict_get (Node.name n) d = None) →
  (∀ i u, _class_uuid s !! i = Some u →
          ∃ c n, c ∈ dict_values d ∧ Class.uuid c = u ∧
                 n ∈ all ∧ Node.id n = i ∧ Class.label c = Node.name n) →
  ∀ i u, _class_uuid s' !! i = Some u →
         ∃ c n, c ∈ dict_values d' ∧ Class.uuid c = u ∧
                n ∈ all ∧ Node.id n = i ∧ Class.label c = Node.name n.
Proof.
  induction nodes as [|n nodes IH]; simpl; intros d s d' s' Hrun Hnd Hfresh Htab.
  - by injection Hrun as <- <-.
  - apply bind_Ok_inv in Hrun as (d1 & s1 & Hstep & Hrest).
    apply add_class_eq in Hstep as (c & s0 & Hmk & -> & ->).
    rewrite make_class_eq in Hmk. injection Hmk as <- <-.
    apply NoDup_cons in Hnd as [Hn Hnd].
    destruct (Hfresh n) as [Hall Hnone]; [left|].
    apply (IH _ _ _ _ Hrest Hnd).
    + intros n' Hn'. destruct (Hfresh n') as [? ?]; [by right|]. split; [done|].
      rewrite dict_get_set_ne; [done|].
      intros Heq. apply Hn. rewrite Heq. by apply list_elem_of_fmap_2.
    + intros i u. simpl. rewrite (dict_set_absent _ _ _ Hnone).
      unfold dict_values. rewrite fmap_app.
      destruct (decide (Node.id n = i)) as [<-|Hne].
      * rewrite lookup_insert_eq. intros [= <-]. eexists _, n.
        split; [apply elem_of_app; right; simpl; left|]. by split_and!.
      * rewrite lookup_insert_ne by done.
        intros (c' & n' & Hc' & Hu & Hn' & Hi & Hl)%Htab.
        exists c', n'. split_and!; [|done..]. apply elem_of_app. by left.
Qed.

Lemma class_loop_uuid_range nodes : ∀ d s d' s',
  foldM (add_class uuid4 randint) d nodes s = Ok (d', s') →
  (∀ c, c ∈ dict_values d → ∃ i, (i < uuid_calls s)%nat ∧ Class.uuid c = uuid4 i) →
  ∀ c, c ∈ dict_values d' →
       ∃ i, (i < uuid_calls s + length nodes)%nat ∧ Class.uuid c = uuid4 i.
Proof.
  induction nodes as [|n nodes IH]; simpl; intros d s d' s' Hrun Hold.
  - injection Hrun as <- <-. intros c (i & Hi & Hu)%Hold. exists i. split; [lia|done].
  - apply bind_Ok_inv in Hrun as (d1 & s1 & Hstep & Hrest).
    apply add_class_eq in Hstep as (c & s0 & Hmk & -> & ->).
    rewrite make_class_eq in Hmk. injection Hmk as <- <-.
    intros c' Hc'. destruct (IH _ _ _ _ Hrest) with (c := c') as (i & Hi & Hu);
      [|done|].
    + intros c0 [->|Hc0]%dict_set_values_elem.
      * exists (uuid_calls s). simpl. split; [lia|done].
      * destruct (Hold _ Hc0) as (i & Hi & Hu). exists i. simpl. split; [lia|done].
    + exists i. simpl in Hi. split; [lia|done].
Qed.

End MorePopulate.

Section MoreRelationships.
Variable uuid4 : nat → string.

Lemma make_rel_fields r s x s' :
  _make_rel uuid4 r s = Ok (x, s') →
  Relationship.label x = Rel.type r ∧
  Relationship.startLabel x = Node.name (Rel.nodes r).1 ∧
  Relationship.endLabel x = Node.name (Rel.nodes r).2 ∧
  Relationship.uuid x = uuid4 (uuid_calls s) ∧
  uuid_calls s' = S (uuid_calls s).
Proof.
  destruct s as [tab u rc lg].
  unfold _make_rel, bind, call_uuid4, class_uuid_get, ret. cbn.
  destruct (tab !! Node.id (Rel.nodes r).1) as [a|]; cbn; [|done].
  destruct (tab !! Node.id (Rel.nodes r).2) as [b|]; cbn; [|done].
  by intros [= <- <-].
Qed.

Lemma make_rel_Err_from r s :
  _class_uuid s !! Node.id (Rel.nodes r).1 = None →
  _make_rel uuid4 r s = Err (KeyError (KInt (Node.id (Rel.nodes r).1))).
Proof.
  destruct s as [tab u rc lg]. simpl. intros Hfrom.
  unfold _make_rel, bind, call_uuid4, class_uuid_get, ret. cbn.
  by rewrite Hfrom.
Qed.

Lemma make_rel_Err_to r s :
  is_Some (_class_uuid s !! Node.id (Rel.nodes r).1) →
  _class_uuid s !! Node.id (Rel.nodes r).2 = None →
  _make_rel uuid4 r s = Err (KeyError (KInt (Node.id (Rel.nodes r).2))).
Proof.
  destruct s as [tab u rc lg]. simpl. intros [a Hfrom] Hto.
  unfold _make_rel, bind, call_uuid4, class_uuid_get, ret. cbn.
  rewrite Hfrom. cbn. by rewrite Hto.
Qed.

(** Every relationship of the dictionary was made for a record of the
    loop, from the table's entries for the ids of its two nodes. *)
Lemma rel_loop_records rels : ∀ d s d' s',
  foldM (add_rel uuid4) d rels s = Ok (d', s') →
  ∀ x, x ∈ dict_values d' →
       x ∈ dict_values d ∨
       ∃ r, r ∈ rels ∧
            Relationship.label x = Rel.type r ∧
            Relationship.startLabel x = Node.name (Rel.nodes r).1 ∧
            Relationship.endLabel x = Node.name (Rel.nodes r).2 ∧
            _class_uuid s !! Node.id (Rel.nodes r).1 = Some (Relationship.start x) ∧
            _class_uuid s !! Node.id (Rel.nodes r).2 = Some (Relationship.endId x).
Proof.
  induction rels as [|r rels IH]; simpl; intros d s d' s' Hrun x Hx.
  - injection Hrun as <- <-. by left.
  - apply bind_Ok_inv in Hrun as (d1 & s1 & Hstep & Hrest).
    apply add_rel_inv in Hstep as (x0 & Hmk & ->).
    destruct (make_rel_fields _ _ _ _ Hmk) as (Hl & Hsl & Hel & _).
    destruct (make_rel_inv _ _ _ _ _ Hmk) as (Hfrom & Hto & Htab & _).
    destruct (IH _ _ _ _ Hrest x Hx) as [Hx0|(r' & Hr' & ? & ? & ? & Hf' & Ht')].
    + apply dict_set_values_elem in Hx0 as [->|Hx0]; [|by left].
      right. exists r. split_and!; [left|done..].
    + right. exists r'. rewrite Htab in Hf', Ht'. split_and!; [by right|done..].
Qed.

Lemma rel_loop_labels rels : ∀ d s d' s',
  foldM (add_rel uuid4) d rels s = Ok (d', s') →
  Forall (λ kx, Relationship.label kx.2 = kx.1) d →
  Forall (λ kx, Relationship.label kx.2 = kx.1) d'.
Proof.
  apply (foldM_entries_Forall _ Rel.type).
  intros d r s d' s' _ (x & Hmk & ->)%add_rel_inv.
  exists x. split; [done|]. by apply make_rel_fields in Hmk as (? & _).
Qed.

(** The uuids of the relationships are those of the calls of [uuid4] made
    by the loop, one for each record that is kept. *)
Lemma rel_loop_uuids lo rels : ∀ d s d' s',
  foldM (add_rel uuid4) d rels s = Ok (d', s') →
  (∀ i j, (i < uuid_calls s + length rels)%nat →
          (j < uuid_calls s + length rels)%nat → uuid4 i = uuid4 j → i = j) →
  NoDup (Relationship.uuid <$> dict_values d) →
  (∀ x, x ∈ dict_values d →
        ∃ i, (lo ≤ i < uuid_calls s)%nat ∧ Relationship.uuid x = uuid4 i) →
  (lo ≤ uuid_calls s)%nat →
  NoDup (Relationship.uuid <$> dict_values d') ∧
  ∀ x, x ∈ dict_values d' →
       ∃ i, (lo ≤ i < uuid_calls s + length rels)%nat ∧
            Relationship.uuid x = uuid4 i.
Proof.
  induction rels as [|r rels IH]; simpl; intros d s d' s' Hrun Hinj Hnd Hold Hlo.
  - injection Hrun as <- <-. split; [done|].
    intros x (i & Hi & Hu)%Hold. exists i. split; [lia|done].
  - apply bind_Ok_inv in Hrun as (d1 & s1 & Hstep & Hrest).
    apply add_rel_inv in Hstep as (x0 & Hmk & ->).
    destruct (make_rel_fields _ _ _ _ Hmk) as (_ & _ & _ & Hu0 & Hcnt).
    destruct (IH _ _ _ _ Hrest) as [Hnd' Hrange].
    + rewrite Hcnt. intros i j Hi Hj. apply Hinj; lia.
    + apply dict_set_values_NoDup; [done|].
      intros (x' & Heq & Hx')%list_elem_of_fmap.
      destruct (Hold _ Hx') as (i & Hi & Hui).
      assert (uuid_calls s = i); [|lia].
      apply Hinj; [lia|lia|congruence].
    + intros x [->|Hx]%dict_set_values_elem.
      * exists (uuid_calls s). split; [lia|done].
      * destruct (Hold _ Hx) as (i & Hi & Hui). exists i. split; [lia|done].
    + lia.
    + split; [done|]. intros x (i & Hi & Hu)%Hrange. exists i. split; [lia|done].
Qed.

(** The first record with an end node outside the table decides the
    exception: its source if that is outside, else its target. *)
Lemma rel_loop_first_Err pre r post d s :
  (∀ r', r' ∈ pre → is_Some (_class_uuid s !! Node.id (Rel.nodes r').1) ∧
                    is_Some (_class_uuid s !! Node.id (Rel.nodes r').2)) →
  (_class_uuid s !! Node.id (Rel.nodes r).1 = None →
   foldM (add_rel uuid4) d (pre ++ r :: post) s
   = Err (KeyError (KInt (Node.id (Rel.nodes r).1)))) ∧
  (is_Some (_class_uuid s !! Node.id (Rel.nodes r).1) →
   _class_uuid s !! Node.id (Rel.nodes r).2 = None →
   foldM (add_rel uuid4) d (pre ++ r :: post) s
   = Err (KeyError (KInt (Node.id (Rel.nodes r).2)))).
Proof.
  intros Hpre.
  destruct (rel_loop_Ok uuid4 pre d s Hpre) as (d1 & s1 & Hrun).
  destruct (rel_loop_inv uuid4 _ _ _ _ _ Hrun) as (Htab & _).
  rewrite foldM_app, (bind_Ok _ _ _ _ _ Hrun). simpl. unfold add_rel.
  split.
  - intros Hfrom. rewrite <- Htab in Hfrom.
    by rewrite (bind_Err _ _ _ _ (bind_Err _ _ _ _ (make_rel_Err_from r s1 Hfrom))).
  - intros Hfrom Hto. rewrite <- Htab in Hfrom, Hto.
    by rewrite (bind_Err _ _ _ _ (bind_Err _ _ _ _ (make_rel_Err_to r s1 Hfrom Hto))).
Qed.

End MoreRelationships.

(** ** More on [collect_attributes] *)

Lemma collect_step_log amap p s amap' s' :
  collect_step amap p s = Ok (amap', s') →
  logger s' = logger s ++ record_warnings p ∧
  _class_uuid s' = _class_uuid s ∧ uuid_calls s' = uuid_calls s ∧
  randint_calls s' = randint_calls s.
Proof.
  destruct s as [tab u rc lg].
  unfold collect_step, _to_hume_type, record_warnings.
  destruct (NodeTypeProperty.nodeLabels p) as [|l [|l' ls]].
  - intros [= <- <-]. done.
  - destruct (NodeTypeProperty.propertyTypes p) as [|t ts] eqn:Hty; [done|].
    destruct (bool_decide (1 < length (t :: ts))),
      (dict_mem t TYPES_MAPPING); cbn; intros [= <- <-]; cbn;
      rewrite <- ?app_assoc, ?app_nil_r; done.
  - intros [= <- <-]. done.
Qed.

Lemma collect_loop_log props : ∀ amap s amap' s',
  foldM collect_step amap props s = Ok (amap', s') →
  logger s' = logger s ++ concat (record_warnings <$> props) ∧
  _class_uuid s' = _class_uuid s ∧ uuid_calls s' = uuid_calls s ∧
  randint_calls s' = randint_calls s.
Proof.
  induction props as [|p props IH]; simpl; intros amap s amap' s' Hrun.
  - injection Hrun as <- <-. by rewrite app_nil_r.
  - apply bind_Ok_inv in Hrun as (amap1 & s1 & Hstep & Hrest).
    apply collect_step_log in Hstep as (Hlog & Htab & Hu & Hr).
    apply IH in Hrest as (Hlog' & Htab' & Hu' & Hr').
    split_and!; [|congruence..].
    rewrite Hlog', Hlog, <- app_assoc. done.
Qed.

Lemma collect_loop_skip props : ∀ amap s,
  (∀ p, p ∈ props → length (NodeTypeProperty.nodeLabels p) ≠ 1) →
  ∃ s', foldM collect_step amap props s = Ok (amap, s').
Proof.
  induction props as [|p props IH]; simpl; intros amap s Hskip.
  - by eexists.
  - destruct (collect_step_skip amap p s) as (s1 & Hstep & _); [apply Hskip; left|].
    rewrite (bind_Ok _ _ _ _ _ Hstep). apply IH. intros p' Hp'. apply Hskip. by right.
Qed.

Lemma collect_loop_Ok_types props : ∀ amap s amap' s',
  foldM collect_step amap props s = Ok (amap', s') →
  ∀ p l, p ∈ props → NodeTypeProperty.nodeLabels p = [l] →
         NodeTypeProperty.propertyTypes p ≠ [].
Proof.
  induction props as [|q props IH]; simpl; intros amap s amap' s' Hrun p l Hp Hl Hty.
  - by apply elem_of_nil in Hp.
  - apply bind_Ok_inv in Hrun as (amap1 & s1 & Hstep & Hrest).
    apply elem_of_cons in Hp as [->|Hp].
    + rewrite (collect_step_single_nil amap q l s Hl Hty) in Hstep. discriminate Hstep.
    + by apply (IH _ _ _ _ Hrest p l Hp Hl).
Qed.

(** ** More on the converter as a whole *)

Section MoreRun.
Variable uuid4 : nat → string.
Variable randint : nat → Z → Z → Z.

Lemma run_states uri database nodes rels props doc s :
  __init__ uuid4 randint uri database nodes rels props = Ok (doc, s) →
  ∃ cs rs s1 s2 s3 cs',
    foldM (add_class uuid4 randint) [] nodes (connected uri database) = Ok (cs, s1) ∧
    foldM (add_rel uuid4) [] rels s1 = Ok (rs, s2) ∧
    log_record INFO (GotCounts (length cs) (length rs)) s2 = Ok (tt, s3) ∧
    collect_attributes props cs s3 = Ok (cs', s) ∧
    classes doc = dict_values cs' ∧ relationships doc = dict_values rs.
Proof.
  rewrite init_unfold.
  intros ([cs rs] & s2 & Hpop & Hrest)%bind_Ok_inv.
  apply bind_Ok_inv in Hrest as ([] & s3 & Hlog & Hrest).
  apply bind_Ok_inv in Hrest as (cs' & s4 & Hcol & Hret).
  injection Hret as <- <-.
  apply populate_schema_inv in Hpop as (s1 & Hcs & Hrs).
  by exists cs, rs, s1, s2, s3, cs'.
Qed.

Lemma collect_attributes_state props cs s cs' s' :
  collect_attributes props cs s = Ok (cs', s') →
  logger s' = logger s ++ concat (record_warnings <$> props) ∧
  _class_uuid s' = _class_uuid s ∧ uuid_calls s' = uuid_calls s ∧
  randint_calls s' = randint_calls s.
Proof.
  unfold collect_attributes. intros (amap & s1 & Hloop1 & Hloop2)%bind_Ok_inv.
  apply attach_loop_inv in Hloop2 as [-> _]. by apply collect_loop_log in Hloop1.
Qed.

End MoreRun.

Lemma NoDup_fmap_inj_on {A B} (f : A → B) (l : list A) x y :
  NoDup (f <$> l) → x ∈ l → y ∈ l → f x = f y → x = y.
Proof.
  induction l as [|a l IH]; simpl.
  - intros _ Hx. by apply elem_of_nil in Hx.
  - intros [Ha Hnd]%NoDup_cons.
    intros [->|Hx]%elem_of_cons [->|Hy]%elem_of_cons Heq; [done| | |by apply IH].
    + exfalso. apply Ha. rewrite Heq. by apply list_elem_of_fmap_2.
    + exfalso. apply Ha. rewrite <- Heq. by apply list_elem_of_fmap_2.
Qed.

Lemma same_entries_values (d d' : dict Class.t) c :
  Forall2 same_entry d d' → c ∈ dict_values d →
  ∃ c', c' ∈ dict_values d' ∧ same_display c c'.
Proof.
  unfold dict_values. induction 1 as [|kc kc' d d' [_ Hkc] _ IH].
  - intros Hc. by apply elem_of_nil in Hc.
  - rewrite !fmap_cons. intros [->|Hc]%elem_of_cons.
    + exists kc'.2. split; [left|done].
    + destruct (IH Hc) as (c' & Hc' & Hsame). exists c'. split; [by right|done].
Qed.

Lemma concat_skip_warnings props :
  (∀ p, p ∈ props → length (NodeTypeProperty.nodeLabels p) ≠ 1) →
  concat (record_warnings <$> props) =
  (λ p, (WARNING, MultipleLabels (NodeTypeProperty.nodeType p)
                    (NodeTypeProperty.nodeLabels p))) <$> props.
Proof.
  induction props as [|p props IH]; intros Hskip; [done|].
  rewrite !fmap_cons. simpl. rewrite IH by (intros q Hq; apply Hskip; by right).
  assert (length (NodeTypeProperty.nodeLabels p) ≠ 1) as Hp by (apply Hskip; left).
  unfold record_warnings.
  by destruct (NodeTypeProperty.nodeLabels p) as [|l [|l' ls]].
Qed.

Section More.
Variable uuid4 : nat → string.
Variable randint : nat → Z → Z → Z.

Lemma class_loop_run nodes d s d' s' :
  foldM (add_class uuid4 randint) d nodes s = Ok (d', s') →
  logger s' = logger s ∧
  ∀ i, _class_uuid s' !! i = None ↔
       _class_uuid s !! i = None ∧ i ∉ Node.id <$> nodes.
Proof.
  intros Hrun.
  destruct (class_loop_total uuid4 randint nodes d s) as (d0 & s0 & Hrun0 & Hlog & _ & Htab).
  rewrite Hrun in Hrun0. by injection Hrun0 as <- <-.
Qed.

Lemma class_loop_known nodes cs s s1 i :
  _class_uuid s = ∅ →
  foldM (add_class uuid4 randint) [] nodes s = Ok (cs, s1) →
  is_Some (_class_uuid s1 !! i) ↔ i ∈ Node.id <$> nodes.
Proof.
  intros Hempty [_ Htab]%class_loop_run.
  rewrite <- not_eq_None_Some, Htab, Hempty, lookup_empty.
  destruct (decide (i ∈ Node.id <$> nodes)); tauto.
Qed.

(** X1: given that [random.randint(a, b)] returns a value from [a] to [b],
    every class of a generated document has a canvas position with [x] from
    100 to 1200 and [y] from 50 to 800, the icon 'mdi-circle-outline', the
    color '#aaa', and as its label the name of a node record. *)
Theorem X1_display_fields uri database nodes rels props doc s :
  randint_in_range randint →
  __init__ uuid4 randint uri database nodes rels props = Ok (doc, s) →
  ∀ c, c ∈ classes doc →
       (100 ≤ CanvasPosition.x (Class.canvasPosition c) ≤ 1200)%Z ∧
       (50 ≤ CanvasPosition.y (Class.canvasPosition c) ≤ 800)%Z ∧
       Class.icon c = "mdi-circle-outline" ∧
       Class.color c = "#aaa" ∧
       Class.label c ∈ Node.name <$> nodes.
Proof.
  intros Hrand (cs & rs & s1 & s2 & s3 & cs' & Hcs & _ & Hcol & -> & _)%run_structure.
  set (P := λ kc : string * Class.t,
         (100 ≤ CanvasPosition.x (Class.canvasPosition kc.2) ≤ 1200)%Z ∧
         (50 ≤ CanvasPosition.y (Class.canvasPosition kc.2) ≤ 800)%Z ∧
         Class.icon kc.2 = "mdi-circle-outline" ∧
         Class.color kc.2 = "#aaa" ∧
         Class.label kc.2 ∈ Node.name <$> nodes).
  assert (Forall P cs) as Hall.
  { apply (foldM_entries_Forall (add_class uuid4 randint) Node.name P nodes) with (d := []) (s := connected uri database) (s' := s1);
      [|done|constructor].
    intros d n s0 d' s' Hn (c & s0' & Hmk & -> & ->)%add_class_eq.
    rewrite make_class_eq in Hmk. injection Hmk as <- <-.
    eexists. split; [done|]. unfold P. simpl.
    split_and!; [apply Hrand; lia..|done|done|by apply list_elem_of_fmap_2]. }
  destruct (collect_attributes_inv _ _ _ _ _ Hcol) as (Hsame & _).
  assert (Forall P cs') as Hall'.
  { apply (same_entries_Forall P P cs cs'); [|done..].
    intros kc kc' [_ (Hl & _ & Hp & Hi & Hc)]. unfold P.
    rewrite Hl, Hp, Hi, Hc. done. }
  intros c Hc. by destruct (dict_values_Forall P cs' c Hall' Hc) as [k Hk].
Qed.

(** X2: a generated document lists its classes in the order in which
    their labels first occur among the node records, and its relationships
    in the order in which their types first occur among the relationship
    records, one for each label and type; in particular, in the order of the
    records when these are pairwise distinct. *)
Theorem X2_document_order uri database nodes rels props doc s :
  __init__ uuid4 randint uri database nodes rels props = Ok (doc, s) →
  Class.label <$> classes doc
  = reverse (remove_dups (reverse (Node.name <$> nodes))) ∧
  Relationship.label <$> relationships doc
  = reverse (remove_dups (reverse (Rel.type <$> rels))) ∧
  (NoDup (Node.name <$> nodes) →
   Class.label <$> classes doc = Node.name <$> nodes) ∧
  (NoDup (Rel.type <$> rels) →
   Relationship.label <$> relationships doc = Rel.type <$> rels).
Proof.
  intros (cs & rs & s1 & s2 & s3 & cs' & Hcs & Hrs & Hcol & -> & ->)%run_structure.
  assert (Class.label <$> dict_values cs' = foldl keys_add [] (Node.name <$> nodes))
    as Hclasses.
  { destruct (collect_attributes_inv _ _ _ _ _ Hcol) as (Hsame & _).
    pose proof (foldM_assign_keys _ _ (add_class_assigns uuid4 randint) _ _ _ _ _ Hcs)
      as Hkeys.
    change (dict_keys []) with (@nil string) in Hkeys.
    rewrite <- Hkeys, <- (same_entries_keys _ _ Hsame).
    apply dict_values_keys.
    apply (same_entries_Forall (λ kc, Class.label kc.2 = kc.1) _ cs cs'); [|done|].
    - intros kc kc' [Hk (Hl & _)]. congruence.
    - apply (foldM_entries_Forall (add_class uuid4 randint) Node.name _ nodes) with (d := [])
        (s := connected uri database) (s' := s1); [|done|constructor].
      intros d n s0 d' s' _ (c & s0' & Hmk & -> & ->)%add_class_eq.
      rewrite make_class_eq in Hmk. injection Hmk as <- <-. by eexists. }
  assert (Relationship.label <$> dict_values rs = foldl keys_add [] (Rel.type <$> rels))
    as Hrels.
  { pose proof (foldM_assign_keys _ _ (add_rel_assigns uuid4) _ _ _ _ _ Hrs) as Hkeys.
    change (dict_keys []) with (@nil string) in Hkeys. rewrite <- Hkeys.
    apply dict_values_keys. apply (rel_loop_labels uuid4 _ _ _ _ _ Hrs). constructor. }
  rewrite Hclasses, Hrels. split_and!.
  - apply foldl_keys_add_first.
  - apply foldl_keys_add_first.
  - apply foldl_keys_add_NoDup_id.
  - apply foldl_keys_add_NoDup_id.
Qed.

(** X3: every relationship of a generated document stands for one of the
    relationship records: its label is the type of the record, its start and
    end labels are the names of the two nodes of the record, whose ids are
    ids of node records; when the two nodes have the same id, its start and
    its end are the same uuid. *)
Theorem X3_relationship_of_record uri database nodes rels props doc s :
  __init__ uuid4 randint uri database nodes rels props = Ok (doc, s) →
  ∀ x, x ∈ relationships doc →
       ∃ r, r ∈ rels ∧
            Relationship.label x = Rel.type r ∧
            Relationship.startLabel x = Node.name (Rel.nodes r).1 ∧
            Relationship.endLabel x = Node.name (Rel.nodes r).2 ∧
            endpoints_in (Node.id <$> nodes) r ∧
            (Node.id (Rel.nodes r).1 = Node.id (Rel.nodes r).2 →
             Relationship.start x = Relationship.endId x).
Proof.
  intros (cs & rs & s1 & s2 & s3 & cs' & Hcs & Hrs & _ & _ & ->)%run_structure x Hx.
  destruct (rel_loop_records uuid4 _ _ _ _ _ Hrs x Hx)
    as [Hnil|(r & Hr & Hl & Hsl & Hel & Hfrom & Hto)].
  { by apply elem_of_nil in Hnil. }
  exists r. split_and!; [done..| |].
  - split; apply (class_loop_known nodes cs (connected uri database) s1); try done;
      by eexists.
  - intros Hid. rewrite Hid in Hfrom. congruence.
Qed.

(** X4: when the node records have pairwise distinct ids and pairwise
    distinct labels and the two nodes of every relationship record are among
    them, the start of every relationship of a generated document is the
    uuid of a class of the document whose label is the start label of the
    relationship, and likewise for its end. *)
Theorem X4_endpoint_labels uri database nodes rels props doc s :
  NoDup (Node.id <$> nodes) →
  NoDup (Node.name <$> nodes) →
  (∀ r, r ∈ rels → (Rel.nodes r).1 ∈ nodes ∧ (Rel.nodes r).2 ∈ nodes) →
  __init__ uuid4 randint uri database nodes rels props = Ok (doc, s) →
  ∀ x, x ∈ relationships doc →
       (∃ c, c ∈ classes doc ∧ Class.uuid c = Relationship.start x ∧
             Class.label c = Relationship.startLabel x) ∧
       (∃ c, c ∈ classes doc ∧ Class.uuid c = Relationship.endId x ∧
             Class.label c = Relationship.endLabel x).
Proof.
  intros Hids Hnames Hends
    (cs & rs & s1 & s2 & s3 & cs' & Hcs & Hrs & Hcol & -> & ->)%run_structure x Hx.
  destruct (collect_attributes_inv _ _ _ _ _ Hcol) as (Hsame & _).
  assert (Hlink : ∀ n u, n ∈ nodes → _class_uuid s1 !! Node.id n = Some u →
                         ∃ c, c ∈ dict_values cs' ∧ Class.uuid c = u ∧
                              Class.label c = Node.name n).
  { intros n u Hn Hu.
    destruct (class_loop_links uuid4 randint nodes nodes _ _ _ _ Hcs Hnames)
      with (i := Node.id n) (u := u) as (c & n' & Hc & Hcu & Hn' & Hid & Hcl);
      [done| |done|].
    { intros i u'. simpl. by rewrite lookup_empty. }
    assert (n' = n) as -> by (by apply (NoDup_fmap_inj_on Node.id nodes)).
    destruct (same_entries_values _ _ _ Hsame Hc) as (c' & Hc' & Hl & Hu' & _).
    exists c'. split_and!; [done|congruence..]. }
  destruct (rel_loop_records uuid4 _ _ _ _ _ Hrs x Hx)
    as [Hnil|(r & Hr & _ & Hsl & Hel & Hfrom & Hto)].
  { by apply elem_of_nil in Hnil. }
  destruct (Hends r Hr) as [Hn1 Hn2]. rewrite Hsl, Hel. split.
  - by apply Hlink.
  - by apply Hlink.
Qed.

(** X5: when the calls of [uuid4] made for the node records and the
    relationship records return pairwise distinct strings, the uuids of the
    classes and of the relationships of a generated document are pairwise
    distinct, relationships and classes taken together. *)
Theorem X5_all_uuids_distinct uri database nodes rels props doc s :
  NoDup (uuid4 <$> seq 0 (length nodes + length rels)) →
  __init__ uuid4 randint uri database nodes rels props = Ok (doc, s) →
  NoDup ((Class.uuid <$> classes doc) ++ (Relationship.uuid <$> relationships doc)).
Proof.
  intros Hnd (cs & rs & s1 & s2 & s3 & cs' & Hcs & Hrs & Hcol & -> & ->)%run_structure.
  assert (Hinj : ∀ i j, (i < length nodes + length rels)%nat →
                        (j < length nodes + length rels)%nat →
                        uuid4 i = uuid4 j → i = j).
  { intros i j Hi Hj. by apply NoDup_fmap_seq_inj with (n := (length nodes + length rels)%nat). }
  pose proof (class_loop_counters uuid4 randint _ _ _ _ _ Hcs) as Hcnt. simpl in Hcnt.
  destruct (collect_attributes_inv _ _ _ _ _ Hcol) as (Hsame & _).
  rewrite (same_entries_uuids _ _ Hsame).
  destruct (rel_loop_uuids uuid4 (length nodes) _ _ _ _ _ Hrs) as [Hndr Hrange].
  { rewrite Hcnt. done. }
  { apply NoDup_nil_2. }
  { intros x Hx. by apply elem_of_nil in Hx. }
  { lia. }
  apply NoDup_app. split_and!; [| |done].
  - apply (class_loop_uuids uuid4 randint _ _ _ _ _ Hcs).
    + simpl. intros i j Hi Hj. apply Hinj; lia.
    + apply NoDup_nil_2.
    + intros c Hc. by apply elem_of_nil in Hc.
  - intros u (c & -> & Hc)%list_elem_of_fmap (x & Hux & Hx)%list_elem_of_fmap.
    destruct (class_loop_uuid_range uuid4 randint _ _ _ _ _ Hcs) with (c := c)
      as (i & Hi & Hci); [|done|].
    { intros c0 Hc0. by apply elem_of_nil in Hc0. }
    destruct (Hrange x Hx) as (j & Hj & Hxj). simpl in Hi. rewrite Hcnt in Hj.
    assert (i = j); [|lia]. apply Hinj; [lia|lia|congruence].
Qed.

(** X6: a property record that names one label and has no observed type
    makes [collect_attributes] raise [IndexError], whatever the classes;
    [__init__] ends with it when both end nodes of every relationship record
    are among the node records. *)
Theorem X6_no_type_raises_IndexError props p l :
  p ∈ props → NodeTypeProperty.nodeLabels p = [l] →
  NodeTypeProperty.propertyTypes p = [] →
  (∀ cs s, collect_attributes props cs s = Err IndexError) ∧
  (∀ uri database nodes rels,
     (∀ r, r ∈ rels → endpoints_in (Node.id <$> nodes) r) →
     __init__ uuid4 randint uri database nodes rels props = Err IndexError).
Proof.
  intros Hp Hl Hty.
  assert (Hcol : ∀ cs s, collect_attributes props cs s = Err IndexError).
  { intros cs s. unfold collect_attributes.
    destruct (foldM collect_step [] props s) as [[amap s1]|e] eqn:Hloop.
    - by destruct (collect_loop_Ok_types _ _ _ _ _ Hloop p l Hp Hl).
    - rewrite (collect_loop_Err _ _ _ _ Hloop) in Hloop. by apply bind_Err. }
  split; [done|]. intros uri database nodes rels Hends. rewrite init_unfold.
  destruct (populate_schema_Ok uuid4 randint nodes rels (connected uri database) Hends)
    as (cs & rs & s1 & Hpop).
  rewrite (bind_Ok _ _ _ _ _ Hpop). erewrite bind_Ok by reflexivity.
  by rewrite (bind_Err _ _ _ _ (Hcol _ _)).
Qed.

(** X7: when [collect_attributes] returns, it has logged the warnings of
    the property records, record by record and nothing else (for a record
    naming one label: one warning if it has several observed types, then one
    if its first type is not in the table; for any other record: the warning
    about its labels), and has left the table of uuids and the two random
    sources as they were. *)
Theorem X7_collect_attributes_log props cs s cs' s' :
  collect_attributes props cs s = Ok (cs', s') →
  logger s' = logger s ++ concat (record_warnings <$> props) ∧
  _class_uuid s' = _class_uuid s ∧
  uuid_calls s' = uuid_calls s ∧
  randint_calls s' = randint_calls s.
Proof. apply collect_attributes_state. Qed.

(** X8: when no property record names exactly one label,
    [collect_attributes] returns the dictionary of classes as it was given,
    whatever the labels and the observed types of the records are, with one
    warning logged for each record. *)
Theorem X8_skipped_records_change_nothing props cs s :
  (∀ p, p ∈ props → length (NodeTypeProperty.nodeLabels p) ≠ 1) →
  ∃ s', collect_attributes props cs s = Ok (cs, s') ∧
        logger s' = logger s ++
          ((λ p, (WARNING, MultipleLabels (NodeTypeProperty.nodeType p)
                             (NodeTypeProperty.nodeLabels p))) <$> props).
Proof.
  intros Hskip.
  destruct (collect_loop_skip props [] s Hskip) as (s' & Hloop).
  assert (collect_attributes props cs s = Ok (cs, s')) as Hrun.
  { unfold collect_attributes. by rewrite (bind_Ok _ _ _ _ _ Hloop). }
  exists s'. split; [done|].
  destruct (collect_attributes_state _ _ _ _ _ Hrun) as (Hlog & _).
  by rewrite Hlog, concat_skip_warnings.
Qed.

(** X9: after [__init__], the table [_class_uuid] has exactly the ids of
    the node records as its keys, and under the id of a node record the
    result of the call of [uuid4] made for the last node record with that
    id. *)
Theorem X9_class_uuid_table uri database nodes rels props doc s :
  __init__ uuid4 randint uri database nodes rels props = Ok (doc, s) →
  (∀ i, is_Some (_class_uuid s !! i) ↔ i ∈ Node.id <$> nodes) ∧
  (∀ pre n post,
     nodes = pre ++ n :: post → Node.id n ∉ (Node.id <$> post) →
     _class_uuid s !! Node.id n = Some (uuid4 (length pre))).
Proof.
  intros (cs & rs & s1 & s2 & s3 & cs' & Hcs & Hrs & Hlog & Hcol & _)%run_states.
  assert (_class_uuid s = _class_uuid s1) as ->.
  { destruct (collect_attributes_state _ _ _ _ _ Hcol) as (_ & -> & _).
    injection Hlog as <-. simpl. by destruct (rel_loop_inv uuid4 _ _ _ _ _ Hrs) as (-> & _). }
  split.
  - intros i. by apply (class_loop_known nodes cs (connected uri database) s1).
  - intros pre n post -> Hlast.
    apply foldM_split in Hcs as (d1 & t1 & d2 & t2 & Hpre & Hstep & Hpost).
    rewrite (class_loop_table_other uuid4 randint _ _ _ _ _ _ Hpost Hlast).
    apply add_class_eq in Hstep as (c & t0 & Hmk & -> & ->).
    rewrite make_class_eq in Hmk. injection Hmk as <- <-. simpl.
    rewrite (class_loop_counters uuid4 randint _ _ _ _ _ Hpre). simpl.
    apply lookup_insert_eq.
Qed.

(** X10: the first relationship record with an end node that is not among
    the node records decides the exception of [populate_schema] (run with an
    empty table) and of [__init__]: [KeyError] on the id of its source node
    if that is not the id of a node record, else on the id of its target
    node. *)
Theorem X10_first_unknown_endpoint uri database nodes pre r post props :
  (∀ r', r' ∈ pre → endpoints_in (Node.id <$> nodes) r') →
  ¬ endpoints_in (Node.id <$> nodes) r →
  let k := if decide (Node.id (Rel.nodes r).1 ∈ Node.id <$> nodes)
           then Node.id (Rel.nodes r).2 else Node.id (Rel.nodes r).1 in
  (∀ s, _class_uuid s = ∅ →
        populate_schema uuid4 randint nodes (pre ++ r :: post) s
        = Err (KeyError (KInt k))) ∧
  __init__ uuid4 randint uri database nodes (pre ++ r :: post) props
  = Err (KeyError (KInt k)).
Proof.
  intros Hpre Hr k.
  assert (Hpop : ∀ s, _class_uuid s = ∅ →
                      populate_schema uuid4 randint nodes (pre ++ r :: post) s
                      = Err (KeyError (KInt k))).
  { intros s Hempty. unfold populate_schema.
    destruct (class_loop_total uuid4 randint nodes [] s) as (cs & s1 & Hcs & _).
    rewrite (bind_Ok _ _ _ _ _ Hcs).
    pose proof (λ i, class_loop_known nodes cs s s1 i Hempty Hcs) as Hknown.
    destruct (rel_loop_first_Err uuid4 pre r post [] s1) as [Hfrom Hto].
    { intros r' [? ?]%Hpre. by rewrite !Hknown. }
    apply bind_Err. unfold k. case_decide as Hin.
    - apply Hto; [by apply Hknown|].
      apply eq_None_not_Some. rewrite Hknown. intros Hin2. apply Hr. by split.
    - apply Hfrom. apply eq_None_not_Some. by rewrite Hknown. }
  split; [done|]. apply init_populate_Err. by apply Hpop.
Qed.

End More.

(** ** The order in which [collect_attributes] visits the labels *)

Lemma dict_set_app_l {V} k v (d1 d2 : dict V) :
  is_Some (dict_get k d1) → dict_set k v (d1 ++ d2) = dict_set k v d1 ++ d2.
Proof.
  induction d1 as [|[k' v'] d1 IH]; simpl.
  - by intros [? ?].
  - case_decide; [done|]. intros Hk. by rewrite IH.
Qed.

Lemma dict_set_app_r {V} k v (d1 d2 : dict V) :
  dict_get k d1 = None → dict_set k v (d1 ++ d2) = d1 ++ dict_set k v d2.
Proof.
  induction d1 as [|[k' v'] d1 IH]; simpl; [done|].
  case_decide; [done|]. intros Hk. by rewrite IH.
Qed.

Lemma collect_step_shape amap p s amap' s' :
  collect_step amap p s = Ok (amap', s') →
  amap' = amap ∨ ∃ l v, amap' = dict_set l v amap.
Proof.
  intros Hstep.
  destruct (decide (length (NodeTypeProperty.nodeLabels p) = 1)) as [Hlen|Hlen].
  - destruct (NodeTypeProperty.nodeLabels p) as [|l [|l' ls]] eqn:Hl; try done.
    destruct (NodeTypeProperty.propertyTypes p) as [|t ts] eqn:Hty.
    + rewrite (collect_step_single_nil amap p l s Hl Hty) in Hstep. discriminate Hstep.
    + destruct (collect_step_single amap p l t ts s Hl Hty) as (a & s0 & Hok & _).
      rewrite Hok in Hstep. injection Hstep as <- <-. right. by eexists _, _.
  - destruct (collect_step_skip amap p s Hlen) as (s0 & Hok & _).
    rewrite Hok in Hstep. injection Hstep as <- <-. by left.
Qed.

(** A label of the map keeps its place, and so do the labels before it. *)
Lemma collect_loop_place props : ∀ d1 l a d3 s amap' s',
  dict_get l d1 = None →
  foldM collect_step (d1 ++ (l, a) :: d3) props s = Ok (amap', s') →
  ∃ d1' a' d3', amap' = d1' ++ (l, a') :: d3' ∧ dict_keys d1' = dict_keys d1.
Proof.
  induction props as [|p props IH]; simpl; intros d1 l a d3 s amap' s' Hl Hrun.
  - injection Hrun as <- <-. by exists d1, a, d3.
  - apply bind_Ok_inv in Hrun as (amap1 & s1 & Hstep & Hrest).
    apply collect_step_shape in Hstep as [->|(l0 & v & ->)].
    { by apply (IH _ _ _ _ _ _ _ Hl Hrest). }
    destruct (dict_get l0 d1) as [v0|] eqn:Hl0.
    + rewrite dict_set_app_l in Hrest by (by eexists).
      destruct (IH (dict_set l0 v d1) l a d3 s1 amap' s') as (d1' & a' & d3' & -> & Hk);
        [|done|].
      { rewrite dict_get_set_ne; [done|]. intros ->. congruence. }
      exists d1', a', d3'. split; [done|]. rewrite Hk.
      apply dict_set_keys_present. by eexists.
    + rewrite dict_set_app_r in Hrest by done. simpl in Hrest.
      case_decide as Heq.
      * subst l0. by apply (IH _ _ _ _ _ _ _ Hl Hrest).
      * by apply (IH _ _ _ _ _ _ _ Hl Hrest).
Qed.

Lemma collect_loop_keys_known (cs : dict Class.t) props amap s s' :
  foldM collect_step [] props s = Ok (amap, s') →
  (∀ q l, q ∈ props → NodeTypeProperty.nodeLabels q = [l] →
          is_Some (dict_get l cs)) →
  ∀ k, k ∈ dict_keys amap → is_Some (dict_get k cs).
Proof.
  intros Hloop Hknown k Hk.
  destruct (collect_loop_inv _ _ _ _ _ Hloop) as (_ & Hnone & _).
  destruct (records_of k props) as [|q qs] eqn:Hrec.
  - exfalso. apply dict_get_None in Hk; [done|]. apply Hnone. done.
  - assert (q ∈ records_of k props) as [Hl Hq]%elem_of_records_of.
    { rewrite Hrec. left. }
    by apply (Hknown q k).
Qed.







(** X12: when every property record naming one label has an observed
    type, the first such record whose label has no class decides the
    exception of [collect_attributes]: [KeyError] on that label. *)
Theorem X12_first_unknown_label pre p post l cs s :
  (∀ q, q ∈ pre ++ p :: post → length (NodeTypeProperty.nodeLabels q) = 1 →
        NodeTypeProperty.propertyTypes q ≠ []) →
  (∀ q l', q ∈ pre → NodeTypeProperty.nodeLabels q = [l'] →
           is_Some (dict_get l' cs)) →
  NodeTypeProperty.nodeLabels p = [l] →
  dict_get l cs = None →
  collect_attributes (pre ++ p :: post) cs s = Err (KeyError (KStr l)).
Proof.
  intros Hty Hpre Hl Hnone. unfold collect_attributes.
  destruct (collect_loop_Ok (pre ++ p :: post) [] s Hty) as (amap & s' & Hloop).
  rewrite (bind_Ok _ _ _ _ _ Hloop).
  apply foldM_split in Hloop as (d1 & s1 & d2 & s2 & Hloop1 & Hstep & Hloop3).
  pose proof (collect_loop_keys_known cs _ _ _ _ Hloop1 Hpre) as Hknown.
  assert (dict_get l d1 = None) as Hfresh.
  { destruct (dict_get l d1) as [a|] eqn:Ha; [|done]. exfalso.
    destruct (Hknown l) as [c Hc]; [|congruence].
    apply dict_get_Some_elem in Ha. apply list_elem_of_fmap. by exists (l, a). }
  destruct (NodeTypeProperty.propertyTypes p) as [|t ts] eqn:Hpty.
  { exfalso. apply (Hty p); [|by rewrite Hl|done]. apply elem_of_app. right. left. }
  destruct (collect_step_single d1 p l t ts s1 Hl Hpty) as (a & s2' & Hok & _).
  rewrite Hok in Hstep. injection Hstep as <- <-.
  rewrite (dict_set_absent _ _ _ Hfresh) in Hloop3.
  apply collect_loop_place in Hloop3 as (d1' & a' & d3' & -> & Hkeys); [|done].
  destruct (attach_loop_Ok d1' cs s') as (cs1 & Hattach).
  { intros k Hk. apply Hknown. by rewrite <- Hkeys. }
  rewrite foldM_app, (bind_Ok _ _ _ _ _ Hattach). simpl.
  destruct (attach_loop_inv _ _ _ _ _ Hattach) as [_ Hsame].
  assert (dict_get l cs1 = None) as Hnone1.
  { apply dict_get_None. rewrite (same_entries_keys _ _ Hsame). by apply dict_get_None. }
  unfold bind, attach_step at 1. simpl. by rewrite Hnone1.
Qed.


Lemma X12_witness :
  collect_attributes ([person_age; person_company_since] ++ city_name :: [company_shape])
    sample_classes init_state
  = Err (KeyError (KStr "City")).
Proof.
  apply (X12_first_unknown_label [person_age; person_company_since] city_name
           [company_shape] "City").
  - intros q Hq _. revert q Hq. apply Forall_forall.
    repeat (constructor; [discriminate|]). constructor.
  - intros q l' [->|[->|Hq]%elem_of_cons]%elem_of_cons Hl'.
    + injection Hl' as <-. by eexists.
    + discriminate Hl'.
    + by apply elem_of_nil in Hq.
  - reflexivity.
  - reflexivity.
Defined.

(** ** The further properties on sample schemas *)

Lemma randint_demo_in_range : randint_in_range randint_demo.
Proof. intros n a b Hab. unfold randint_demo. lia. Qed.

Lemma X1_witness :
  ∃ doc s,
    __init__ uuid4_demo randint_demo URI DATABASE [person; company] [works_at]
      [person_age] = Ok (doc, s) ∧
    Forall (λ c,
              (100 ≤ CanvasPosition.x (Class.canvasPosition c) ≤ 1200)%Z ∧
              (50 ≤ CanvasPosition.y (Class.canvasPosition c) ≤ 800)%Z ∧
              Class.icon c = "mdi-circle-outline" ∧
              Class.color c = "#aaa" ∧
              Class.label c ∈ Node.name <$> [person; company]) (classes doc).
Proof.
  destruct (__init__ uuid4_demo randint_demo URI DATABASE [person; company]
              [works_at] [person_age]) as [[doc s]|e] eqn:Hrun;
    [|vm_compute in Hrun; discriminate Hrun].
  exists doc, s. split; [reflexivity|]. apply Forall_forall.
  exact (X1_display_fields uuid4_demo randint_demo URI DATABASE [person; company]
           [works_at] [person_age] doc s randint_demo_in_range Hrun).
Defined.

Lemma X2_witness :
  ∃ doc s,
    __init__ uuid4_demo randint_demo URI DATABASE [person; company; person']
      [works_at; knows; works_at] [person_age] = Ok (doc, s) ∧
    Class.label <$> classes doc
    = reverse (remove_dups (reverse (Node.name <$> [person; company; person']))) ∧
    Relationship.label <$> relationships doc
    = reverse (remove_dups (reverse (Rel.type <$> [works_at; knows; works_at]))) ∧
    (NoDup (Node.name <$> [person; company; person']) →
     Class.label <$> classes doc = Node.name <$> [person; company; person']) ∧
    (NoDup (Rel.type <$> [works_at; knows; works_at]) →
     Relationship.label <$> relationships doc
     = Rel.type <$> [works_at; knows; works_at]).
Proof.
  destruct (__init__ uuid4_demo randint_demo URI DATABASE [person; company; person']
              [works_at; knows; works_at] [person_age]) as [[doc s]|e] eqn:Hrun;
    [|vm_compute in Hrun; discriminate Hrun].
  exists doc, s. split; [reflexivity|].
  exact (X2_document_order uuid4_demo randint_demo URI DATABASE
           [person; company; person'] [works_at; knows; works_at] [person_age]
           doc s Hrun).
Defined.

Lemma X3_witness :
  ∃ doc s,
    __init__ uuid4_demo randint_demo URI DATABASE [person; company]
      [works_at; self_loop] [] = Ok (doc, s) ∧
    Forall (λ x,
              ∃ r, r ∈ [works_at; self_loop] ∧
                   Relationship.label x = Rel.type r ∧
                   Relationship.startLabel x = Node.name (Rel.nodes r).1 ∧
                   Relationship.endLabel x = Node.name (Rel.nodes r).2 ∧
                   endpoints_in (Node.id <$> [person; company]) r ∧
                   (Node.id (Rel.nodes r).1 = Node.id (Rel.nodes r).2 →
                    Relationship.start x = Relationship.endId x))
      (relationships doc).
Proof.
  destruct (__init__ uuid4_demo randint_demo URI DATABASE [person; company]
              [works_at; self_loop] []) as [[doc s]|e] eqn:Hrun;
    [|vm_compute in Hrun; discriminate Hrun].
  exists doc, s. split; [reflexivity|]. apply Forall_forall.
  exact (X3_relationship_of_record uuid4_demo randint_demo URI DATABASE
           [person; company] [works_at; self_loop] [] doc s Hrun).
Defined.

Lemma X4_witness :
  ∃ doc s,
    __init__ uuid4_demo randint_demo URI DATABASE [person; company]
      [works_at; self_loop] [person_age] = Ok (doc, s) ∧
    Forall (λ x,
              (∃ c, c ∈ classes doc ∧ Class.uuid c = Relationship.start x ∧
                    Class.label c = Relationship.startLabel x) ∧
              (∃ c, c ∈ classes doc ∧ Class.uuid c = Relationship.endId x ∧
                    Class.label c = Relationship.endLabel x))
      (relationships doc).
Proof.
  destruct (__init__ uuid4_demo randint_demo URI DATABASE [person; company]
              [works_at; self_loop] [person_age]) as [[doc s]|e] eqn:Hrun;
    [|vm_compute in Hrun; discriminate Hrun].
  exists doc, s. split; [reflexivity|]. apply Forall_forall.
  apply (X4_endpoint_labels uuid4_demo randint_demo URI DATABASE [person; company]
           [works_at; self_loop] [person_age] doc s); [| | |exact Hrun].
  - apply (bool_decide_unpack _). vm_compute. exact I.
  - apply (bool_decide_unpack _). vm_compute. exact I.
  - intros r [->|[->|Hr]%elem_of_cons]%elem_of_cons.
    + split; [left|right; left].
    + split; left.
    + by apply elem_of_nil in Hr.
Defined.

Lemma X5_witness :
  ∃ doc s,
    __init__ uuid4_demo randint_demo URI DATABASE [person; company; person']
      [works_at; knows] [person_age] = Ok (doc, s) ∧
    NoDup ((Class.uuid <$> classes doc) ++
           (Relationship.uuid <$> relationships doc)).
Proof.
  destruct (__init__ uuid4_demo randint_demo URI DATABASE [person; company; person']
              [works_at; knows] [person_age]) as [[doc s]|e] eqn:Hrun;
    [|vm_compute in Hrun; discriminate Hrun].
  exists doc, s. split; [reflexivity|].
  apply (X5_all_uuids_distinct uuid4_demo randint_demo URI DATABASE
           [person; company; person'] [works_at; knows] [person_age] doc s);
    [|exact Hrun].
  apply (bool_decide_unpack _). vm_compute. exact I.
Defined.

Lemma X6_witness :
  (∀ cs s, collect_attributes [person_age; person_name_untyped] cs s
           = Err IndexError) ∧
  (∀ uri database nodes rels,
     (∀ r, r ∈ rels → endpoints_in (Node.id <$> nodes) r) →
     __init__ uuid4_demo randint_demo uri database nodes rels
       [person_age; person_name_untyped] = Err IndexError).
Proof.
  apply (X6_no_type_raises_IndexError uuid4_demo randint_demo
           [person_age; person_name_untyped] person_name_untyped "Person").
  - right. left.
  - reflexivity.
  - reflexivity.
Defined.

Lemma X7_witness :
  ∃ cs' s',
    collect_attributes [person_age; person_company_since; company_shape]
      sample_classes init_state = Ok (cs', s') ∧
    logger s' = logger init_state ++
      concat (record_warnings <$> [person_age; person_company_since; company_shape]) ∧
    _class_uuid s' = _class_uuid init_state ∧
    uuid_calls s' = uuid_calls init_state ∧
    randint_calls s' = randint_calls init_state.
Proof.
  destruct (collect_attributes [person_age; person_company_since; company_shape]
              sample_classes init_state) as [[cs' s']|e] eqn:Hrun;
    [|vm_compute in Hrun; discriminate Hrun].
  exists cs', s'. split; [reflexivity|].
  exact (X7_collect_attributes_log
           [person_age; person_company_since; company_shape] sample_classes
           init_state cs' s' Hrun).
Defined.

Lemma X8_witness :
  ∃ s',
    collect_attributes [person_company_since] sample_classes init_state
    = Ok (sample_classes, s') ∧
    logger s' = logger init_state ++
      ((λ p, (WARNING, MultipleLabels (NodeTypeProperty.nodeType p)
                         (NodeTypeProperty.nodeLabels p)))
         <$> [person_company_since]).
Proof.
  apply (X8_skipped_records_change_nothing [person_company_since] sample_classes
           init_state).
  intros p ->%list_elem_of_singleton. simpl. lia.
Defined.

Lemma X9_witness :
  ∃ doc s,
    __init__ uuid4_demo randint_demo URI DATABASE [person; company; person']
      [works_at] [person_age] = Ok (doc, s) ∧
    (∀ i, is_Some (_class_uuid s !! i)
          ↔ i ∈ Node.id <$> [person; company; person']) ∧
    (∀ pre n post,
       [person; company; person'] = pre ++ n :: post →
       Node.id n ∉ (Node.id <$> post) →
       _class_uuid s !! Node.id n = Some (uuid4_demo (length pre))).
Proof.
  destruct (__init__ uuid4_demo randint_demo URI DATABASE [person; company; person']
              [works_at] [person_age]) as [[doc s]|e] eqn:Hrun;
    [|vm_compute in Hrun; discriminate Hrun].
  exists doc, s. split; [reflexivity|].
  exact (X9_class_uuid_table uuid4_demo randint_demo URI DATABASE
           [person; company; person'] [works_at] [person_age] doc s Hrun).
Defined.

Lemma X10_witness :
  (∀ s, _class_uuid s = ∅ →
        populate_schema uuid4_demo randint_demo [person; person']
          ([knows] ++ works_at :: [self_loop]) s = Err (KeyError (KInt 2))) ∧
  __init__ uuid4_demo randint_demo URI DATABASE [person; person']
    ([knows] ++ works_at :: [self_loop]) [person_age] = Err (KeyError (KInt 2)).
Proof.
  apply (X10_first_unknown_endpoint uuid4_demo randint_demo URI DATABASE
           [person; person'] [knows] works_at [self_loop] [person_age]).
  - intros r ->%list_elem_of_singleton. split; [left|right; left].
  - intros [_ Hto]. revert Hto. apply (bool_decide_unpack _). vm_compute. exact I.
Defined.
